(** * cubes/db: the migration log, the snapshot builder and the sync engine

    A shallow embedding of [db/migration.go] and [db/sync.go].

    - Go strings are byte strings: [string].
    - The migrations directory is a finite map from file names to file
      contents.
    - [encoding/json] and the SQL server are outside the repository; they
      are taken as parameters ([Json], [Server]) of the whole development.
    - A [*sql.Tx] is the list of statements the server has accepted inside
      the transaction, on top of the statements committed by earlier runs.
    - A Go [error] is a value of [error]; [nil] is the absence of one. *)

From Stdlib Require Import Strings.Ascii Strings.String.
From stdpp Require Import base option list gmap strings sorting.

(** ** Strings *)

Module Str.

Definition dq : string := String (Ascii.ascii_of_nat 34) "".
Definition nl : string := String (Ascii.ascii_of_nat 10) "".
Definition tab : string := String (Ascii.ascii_of_nat 9) "".

Fixpoint concat (l : list string) : string :=
  match l with
  | [] => ""
  | s :: l => s +:+ concat l
  end.

(** [unicode.IsSpace] on the UTF-8 encoding: strips one white-space rune
    from the front of [s]. The white-space runes are U+0009..U+000D,
    U+0020, U+0085, U+00A0, U+1680, U+2000..U+200A, U+2028, U+2029,
    U+202F, U+205F and U+3000. *)
Definition skipSpace (s : string) : option string :=
  match s with
  | String c s1 =>
      let n := Ascii.nat_of_ascii c in
      if bool_decide (9 ≤ n ≤ 13) || bool_decide (n = 32) then Some s1 else
      match s1 with
      | String c1 s2 =>
          let n1 := Ascii.nat_of_ascii c1 in
          if bool_decide (n = 194) then
            if bool_decide (n1 = 133) || bool_decide (n1 = 160)
            then Some s2 else None
          else
          match s2 with
          | String c2 s3 =>
              let n2 := Ascii.nat_of_ascii c2 in
              if bool_decide (n = 225) then
                if bool_decide (n1 = 154) && bool_decide (n2 = 128)
                then Some s3 else None
              else if bool_decide (n = 226) then
                if bool_decide (n1 = 128) &&
                   (bool_decide (128 ≤ n2 ≤ 138) || bool_decide (n2 = 168)
                    || bool_decide (n2 = 169) || bool_decide (n2 = 175))
                then Some s3
                else if bool_decide (n1 = 129) && bool_decide (n2 = 159)
                then Some s3 else None
              else if bool_decide (n = 227) then
                if bool_decide (n1 = 128) && bool_decide (n2 = 128)
                then Some s3 else None
              else None
          | "" => None
          end
      | "" => None
      end
  | "" => None
  end.

Fixpoint allSpace (fuel : nat) (s : string) : bool :=
  match s with
  | "" => true
  | _ =>
      match fuel with
      | 0 => false
      | S fuel =>
          match skipSpace s with
          | Some s' => allSpace fuel s'
          | None => false
          end
      end
  end.

(** [strings.TrimSpace(s) == ""]: every rune of [s] is white space. Each
    round removes at least one byte, so [length s] rounds are enough. *)
Definition isBlank (s : string) : bool := allSpace (String.length s) s.

(** [fmt.Sprintf] restricted to the verb [%v] applied to strings: each
    [%v] is replaced by the next operand. *)
Fixpoint Sprintf (format : string) (args : list string) : string :=
  match format with
  | String "%"%char (String "v"%char rest) =>
      match args with
      | a :: args => a +:+ Sprintf rest args
      | [] => "%!v(MISSING)" +:+ Sprintf rest []
      end
  | String c rest => String c (Sprintf rest args)
  | "" => ""
  end.

Definition showBool (b : bool) : string := if b then "true" else "false".

Definition quote (s : string) : string := dq +:+ s +:+ dq.

(** [strings.Join] *)
Fixpoint join (sep : string) (l : list string) : string :=
  match l with
  | [] => ""
  | [s] => s
  | s :: l => s +:+ sep +:+ join sep l
  end.

End Str.

(** ** Errors *)

(** The kinds of the specification's error taxonomy; only the snapshot
    builder, which is modelled from the specification, produces them. *)
Inductive ErrorKind :=
| FormatError
| NotFoundError
| ConflictError.

Inductive error :=
| External (msg : string)
    (** an error value of a library or of the SQL server *)
| Kind (k : ErrorKind)
    (** an error of the snapshot builder *)
| Errorf (format : string) (args : list string)
    (** [fmt.Errorf(format, args...)] *)
| Wrap (format : string) (args : list string) (cause : error)
    (** [fmt.Errorf(format, args..., cause)], the last [%v] being [cause] *)
| Panic (msg : string).
    (** a run-time panic *)

Global Instance ErrorKind_eq_dec : EqDecision ErrorKind.
Proof. solve_decision. Defined.

(** ** The data model of [migration.go] *)

Record AddTableParams := { at_Name : string }.
Record DeleteTableParams := { dt_Name : string }.
Record AddColumnParams := {
  ac_Table : string;
  ac_Column : string;
  ac_Type : string;
  ac_IsNullable : bool;
  ac_DefaultValue : string }.
Record DeleteColumnParams := { dc_Table : string; dc_Column : string }.
Record AddPrimaryKeyParams := { apk_Table : string; apk_Column : string }.
Record DeletePrimaryKeyParams := { dpk_Table : string; dpk_Column : string }.

(** [json.RawMessage]: the bytes of the [params] member. *)
Definition RawMessage := string.

Record Action := { Method : string; Params : RawMessage }.

Record Migration := {
  SchemaVersion : string;
  Id : string;
  Description : string;
  Actions : list Action }.

(** A value of type [interface{}] as [decodeAction] and the [Add...]
    functions produce it: [nil] or one of the parameter structs. *)
Inductive Iface :=
| INil
| IAddTable (p : AddTableParams)
| IDeleteTable (p : DeleteTableParams)
| IAddColumn (p : AddColumnParams)
| IDeleteColumn (p : DeleteColumnParams)
| IAddPrimaryKey (p : AddPrimaryKeyParams)
| IDeletePrimaryKey (p : DeletePrimaryKeyParams).

(** The verb [%v] on such a value. *)
Definition showIface (v : Iface) : string :=
  match v with
  | INil => "<nil>"
  | IAddTable p => "{" +:+ at_Name p +:+ "}"
  | IDeleteTable p => "{" +:+ dt_Name p +:+ "}"
  | IAddColumn p =>
      "{" +:+ ac_Table p +:+ " " +:+ ac_Column p +:+ " " +:+ ac_Type p +:+ " "
        +:+ Str.showBool (ac_IsNullable p) +:+ " " +:+ ac_DefaultValue p +:+ "}"
  | IDeleteColumn p => "{" +:+ dc_Table p +:+ " " +:+ dc_Column p +:+ "}"
  | IAddPrimaryKey p => "{" +:+ apk_Table p +:+ " " +:+ apk_Column p +:+ "}"
  | IDeletePrimaryKey p => "{" +:+ dpk_Table p +:+ " " +:+ dpk_Column p +:+ "}"
  end.

(** [encoding/json], as far as the package uses it. [inl] is the error
    the library returns. *)
Record Json := {
  unmarshalMigration : string → error + Migration;
  unmarshalAddTable : RawMessage → error + AddTableParams;
  unmarshalDeleteTable : RawMessage → error + DeleteTableParams;
  unmarshalAddColumn : RawMessage → error + AddColumnParams;
  unmarshalDeleteColumn : RawMessage → error + DeleteColumnParams;
  unmarshalAddPrimaryKey : RawMessage → error + AddPrimaryKeyParams;
  unmarshalDeletePrimaryKey : RawMessage → error + DeletePrimaryKeyParams;
  marshalIndentIface : Iface → RawMessage;
  marshalIndentMigration : Migration → string;
  marshalMigration : Migration → string }.

(** ** The action log store ([migration.go]) *)

(** The process's view of the file system: whether [os.Getwd] fails, the
    files of the migrations directory by file name, and the file names that
    [ioutil.WriteFile] cannot write. *)
Record Disk := {
  getwd_err : option error;
  files : gmap string string;
  write_err : string → option error }.

Definition hasSuffix (s suffix : string) : bool :=
  let n := String.length s in
  let m := String.length suffix in
  bool_decide (m ≤ n) && bool_decide (String.substring (n - m) m s = suffix).

Definition trimSuffix (s suffix : string) : string :=
  if hasSuffix s suffix
  then String.substring 0 (String.length s - String.length suffix) s
  else s.

(** [sort.Strings] *)
Definition sortStrings (l : list string) : list string :=
  merge_sort String.le l.

(** The path of a migration, relative to the migrations directory. *)
Definition getMigrationPath (d : Disk) (id : string) : error + string :=
  match getwd_err d with
  | Some e => inl e
  | None => inr (id +:+ ".json")
  end.

(** [filepath.Glob] of [*.json] in the migrations directory. *)
Definition globJson (d : Disk) : list string :=
  filter (λ name, hasSuffix name ".json" = true) (elements (dom (files d))).

Section LogStore.

Context (json : Json).

(** The error of [ioutil.ReadFile] is dropped: an unreadable or absent file
    reads as the empty text, with no error. *)
Definition GetText (d : Disk) (id : string) : error + string :=
  match getMigrationPath d id with
  | inl _ => inr ""
  | inr migrationPath => inr (default "" (files d !! migrationPath))
  end.

Definition Get (d : Disk) (id : string) : error + Migration :=
  match GetText d id with
  | inl err => inl err
  | inr rawMigration =>
      match unmarshalMigration json rawMigration with
      | inl err => inl (Wrap "can't parse migration: %v/n" [] err)
      | inr migration => inr migration
      end
  end.

Fixpoint GetList_loop (d : Disk) (fileNames : list string)
    (result : list Migration) : error + list Migration :=
  match fileNames with
  | [] => inr result
  | fileName :: fileNames =>
      let migrationId := trimSuffix fileName ".json" in
      match Get d migrationId with
      | inl err => inl (Wrap "can't read migration %v/n" [] err)
      | inr migration => GetList_loop d fileNames (result ++ [migration])
      end
  end.

Definition GetList (d : Disk) : error + list Migration :=
  match getwd_err d with
  | Some err => inl err
  | None => GetList_loop d (sortStrings (globJson d)) []
  end.

(** [decodeAction] of [sync.go]: an unknown method is not an error. *)
Definition decodeAction (method : string) (params : RawMessage)
    : error + (string * Iface) :=
  if decide (method = "addTable") then
    match unmarshalAddTable json params with
    | inl err => inl err
    | inr p => inr (method, IAddTable p)
    end
  else if decide (method = "deleteTable") then
    match unmarshalDeleteTable json params with
    | inl err => inl err
    | inr p => inr (method, IDeleteTable p)
    end
  else if decide (method = "addColumn") then
    match unmarshalAddColumn json params with
    | inl err => inl err
    | inr p => inr (method, IAddColumn p)
    end
  else if decide (method = "deleteColumn") then
    match unmarshalDeleteColumn json params with
    | inl err => inl err
    | inr p => inr (method, IDeleteColumn p)
    end
  else if decide (method = "addPrimaryKey") then
    match unmarshalAddPrimaryKey json params with
    | inl err => inl err
    | inr p => inr (method, IAddPrimaryKey p)
    end
  else if decide (method = "deletePrimaryKey") then
    match unmarshalDeletePrimaryKey json params with
    | inl err => inl err
    | inr p => inr (method, IDeletePrimaryKey p)
    end
  else inr ("", INil).

End LogStore.

(** ** The snapshot builder

    The file of the package that builds snapshots is not part of the
    sources at hand; [sync.go] and [migration.go] only call it. Its types
    and functions are modelled from the specification (sections 3 and
    4.2). *)

(** Modelled from the spec: the column record of the missing snapshot
    types, "name -> {type, nullable, default}". *)
Record Column := {
  col_Type : string;
  col_IsNullable : bool;
  col_DefaultValue : string }.

(** Modelled from the spec: the missing [Table] type, "ordered columns keyed
    by name, ordered list of primary-key column names". [sync.go] reads the
    field [PrimaryKeys]. *)
Record Table := {
  Columns : list (string * Column);
  PrimaryKeys : list string }.

(** Modelled from the spec: the missing [Snapshot] type, a set of tables
    by name. *)
Abbreviation Snapshot := (gmap string Table).

(** Modelled from the spec: the missing helper [getTableFromSnapshot];
    [None] is the nil pointer that [sync.go] tests for. *)
Definition getTableFromSnapshot (snapshot : Snapshot) (name : string)
    : option Table :=
  snapshot !! name.

(** Modelled from the spec: the search of a column by name in the ordered
    columns of a table. *)
Fixpoint lookupColumn (cols : list (string * Column)) (name : string)
    : option Column :=
  match cols with
  | [] => None
  | (n, c) :: cols => if decide (n = name) then Some c else lookupColumn cols name
  end.

(** Modelled from the spec: the missing helper [getColumnFromTable]. *)
Definition getColumnFromTable (table : Table) (name : string) : option Column :=
  lookupColumn (Columns table) name.

(** Modelled from the spec: "remove column", the other columns keep their
    order. *)
Definition removeColumn (cols : list (string * Column)) (name : string)
    : list (string * Column) :=
  filter (λ nc, nc.1 ≠ name) cols.

(** Modelled from the spec: "remove from key list, preserving order of the
    rest". *)
Definition removeKey (keys : list string) (name : string) : list string :=
  filter (λ k, k ≠ name) keys.

(** Modelled from the spec: one step of the missing snapshot fold, the
    table of section 4.2 row by row. A [nil] action (what [decodeAction]
    yields for an unknown method) leaves the snapshot as it is. *)
Definition applyAction (s : Snapshot) (a : Iface) : error + Snapshot :=
  match a with
  | INil => inr s
  | IAddTable p =>
      match s !! at_Name p with
      | Some _ => inl (Kind ConflictError)
      | None => inr (<[at_Name p := {| Columns := []; PrimaryKeys := [] |}]> s)
      end
  | IDeleteTable p =>
      match s !! dt_Name p with
      | Some _ => inr (delete (dt_Name p) s)
      | None => inl (Kind NotFoundError)
      end
  | IAddColumn p =>
      match s !! ac_Table p with
      | None => inl (Kind NotFoundError)
      | Some t =>
          match getColumnFromTable t (ac_Column p) with
          | Some _ => inl (Kind ConflictError)
          | None =>
              let c := {| col_Type := ac_Type p;
                          col_IsNullable := ac_IsNullable p;
                          col_DefaultValue := ac_DefaultValue p |} in
              inr (<[ac_Table p :=
                       {| Columns := Columns t ++ [(ac_Column p, c)];
                          PrimaryKeys := PrimaryKeys t |}]> s)
          end
      end
  | IDeleteColumn p =>
      match s !! dc_Table p with
      | None => inl (Kind NotFoundError)
      | Some t =>
          match getColumnFromTable t (dc_Column p) with
          | None => inl (Kind NotFoundError)
          | Some _ =>
              inr (<[dc_Table p :=
                       {| Columns := removeColumn (Columns t) (dc_Column p);
                          PrimaryKeys := removeKey (PrimaryKeys t) (dc_Column p) |}]> s)
          end
      end
  | IAddPrimaryKey p =>
      match s !! apk_Table p with
      | None => inl (Kind NotFoundError)
      | Some t =>
          match getColumnFromTable t (apk_Column p) with
          | None => inl (Kind NotFoundError)
          | Some _ =>
              if decide (apk_Column p ∈ PrimaryKeys t)
              then inl (Kind ConflictError)
              else inr (<[apk_Table p :=
                            {| Columns := Columns t;
                               PrimaryKeys := PrimaryKeys t ++ [apk_Column p] |}]> s)
          end
      end
  | IDeletePrimaryKey p =>
      match s !! dpk_Table p with
      | None => inl (Kind NotFoundError)
      | Some t =>
          if decide (dpk_Column p ∈ PrimaryKeys t)
          then inr (<[dpk_Table p :=
                        {| Columns := Columns t;
                           PrimaryKeys := removeKey (PrimaryKeys t) (dpk_Column p) |}]> s)
          else inl (Kind NotFoundError)
      end
  end.

Section SnapshotBuilder.

Context (json : Json).

(** Modelled from the spec: the missing fold over persisted actions, each
    decoded by [decodeAction]; parameters that do not decode are a
    [FormatError]. *)
Fixpoint replay (s : Snapshot) (actions : list Action) : error + Snapshot :=
  match actions with
  | [] => inr s
  | a :: actions =>
      match decodeAction json (Method a) (Params a) with
      | inl _ => inl (Kind FormatError)
      | inr (_, v) =>
          match applyAction s v with
          | inl err => inl err
          | inr s' => replay s' actions
          end
      end
  end.

(** Modelled from the spec: the action sequence of the whole log. *)
Definition allActions (log : list Migration) : list Action :=
  mjoin (Actions <$> log).

(** Modelled from the spec: the prefix "up to and excluding a given
    action", the actions of the log before action [actionIndex] of the
    migration [migrationId]. *)
Fixpoint actionsBefore (log : list Migration) (migrationId : string)
    (actionIndex : nat) : option (list Action) :=
  match log with
  | [] => None
  | m :: log =>
      if decide (Id m = migrationId)
      then Some (take actionIndex (Actions m))
      else (Actions m ++.) <$> actionsBefore log migrationId actionIndex
  end.

(** Modelled from the spec: the missing [GetSnapshotWithAction] as
    [sync.go] calls it, [snapshotAsOf(migrationId, actionIndex)]: "replay
    the committed log up to and excluding a given action". *)
Definition snapshotAsOf (log : list Migration) (migrationId : string)
    (actionIndex : nat) : error + Snapshot :=
  match actionsBefore log migrationId actionIndex with
  | None => inl (Kind NotFoundError)
  | Some actions => replay ∅ actions
  end.

(** Modelled from the spec: the candidate of an append as one of the six
    action kinds, checked against its method name. *)
Definition candidate (method : string) (params : Iface) : error + Iface :=
  match params with
  | INil => inl (Kind FormatError)
  | IAddTable _ =>
      if decide (method = "addTable") then inr params else inl (Kind FormatError)
  | IDeleteTable _ =>
      if decide (method = "deleteTable") then inr params else inl (Kind FormatError)
  | IAddColumn _ =>
      if decide (method = "addColumn") then inr params else inl (Kind FormatError)
  | IDeleteColumn _ =>
      if decide (method = "deleteColumn") then inr params else inl (Kind FormatError)
  | IAddPrimaryKey _ =>
      if decide (method = "addPrimaryKey") then inr params else inl (Kind FormatError)
  | IDeletePrimaryKey _ =>
      if decide (method = "deletePrimaryKey") then inr params
      else inl (Kind FormatError)
  end.

(** Modelled from the spec: the missing [GetSnapshotWithAction] as
    [migration.go] calls it, [previewWithHypothetical(method, params)]:
    "replay the entire current log plus one trailing candidate action". *)
Definition previewWithHypothetical (log : list Migration) (method : string)
    (params : Iface) : error + Snapshot :=
  match replay ∅ (allActions log) with
  | inl err => inl err
  | inr s =>
      match candidate method params with
      | inl err => inl err
      | inr a => applyAction s a
      end
  end.

(** Modelled from the spec: the missing [GetCurrentSnapshot], the replay of
    the full log that [Sync] runs as a sanity check. *)
Definition GetCurrentSnapshot (log : list Migration) : error + Snapshot :=
  replay ∅ (allActions log).

End SnapshotBuilder.

(** ** The target store *)

(** A call [transaction.Exec(query, args...)]. *)
Record Stmt := { query : string; args : list string }.

Global Instance Stmt_eq_dec : EqDecision Stmt.
Proof. solve_decision. Defined.

(** The SQL server, as the package sees it: which calls return an error.
    [exec_err] and [commit_err] are given the statements the server has
    accepted so far (committed ones first, then those of the open
    transaction). *)
Record Server := {
  open_err : option error;
  ping_err : option error;
  begin_err : option error;
  exec_err : list Stmt → Stmt → option error;
  scan_err : list Stmt → option error;
  commit_err : list Stmt → option error }.

(** An open [*sql.Tx]: the statements committed by earlier runs, and the
    calls of [Exec] made inside the transaction, in order, each with
    whether the server accepted it. *)
Record Tx := {
  committed : list Stmt;
  calls : list (Stmt * bool) }.

Definition sent (tx : Tx) : list Stmt := (calls tx).*1.

Definition accepted (tx : Tx) : list Stmt :=
  (filter (λ c, c.2 = true) (calls tx)).*1.

Definition visible (tx : Tx) : list Stmt := committed tx ++ accepted tx.

Definition begin (db : list Stmt) : Tx :=
  {| committed := db; calls := [] |}.

Definition insertMigrationQuery : string :=
  "INSERT INTO _migrations (id, data) VALUES ($1, $2)".

(** The ids of the rows of [_migrations]: one row per accepted insert. *)
Definition migrationRows (h : list Stmt) : list string :=
  omap (λ s, if decide (query s = insertMigrationQuery)
             then head (args s) else None) h.

(** [ORDER BY id DESC LIMIT 1], ids compared byte by byte. *)
Fixpoint maxId (ids : list string) : option string :=
  match ids with
  | [] => None
  | id :: ids =>
      match maxId ids with
      | None => Some id
      | Some m => if String.leb id m then Some m else Some id
      end
  end.

(** ** The SQL text of [sync.go] *)

Module Sql.
Import Str.

Definition createTable : string := "CREATE TABLE " +:+ dq +:+ "%v" +:+ dq +:+ " ();".
Definition dropTable : string := "DROP TABLE " +:+ dq +:+ "%v" +:+ dq.
Definition addColumn : string :=
  nl +:+ tab +:+ tab +:+ "ALTER TABLE " +:+ dq +:+ "%v" +:+ dq +:+
  nl +:+ tab +:+ tab +:+ tab +:+ "ADD COLUMN " +:+ dq +:+ "%v" +:+ dq +:+ " %v %v %v" +:+
  nl +:+ tab.
Definition dropColumn : string :=
  nl +:+ tab +:+ tab +:+ "ALTER TABLE " +:+ dq +:+ "%v" +:+ dq +:+
  nl +:+ tab +:+ tab +:+ tab +:+ "DROP COLUMN " +:+ dq +:+ "%v" +:+ dq +:+
  nl +:+ tab.
Definition dropConstraint : string :=
  nl +:+ tab +:+ tab +:+ tab +:+ "ALTER TABLE " +:+ dq +:+ "%v" +:+ dq +:+
  nl +:+ tab +:+ tab +:+ tab +:+ tab +:+ "DROP CONSTRAINT pkey" +:+
  nl +:+ tab +:+ tab.
Definition addConstraint : string :=
  nl +:+ tab +:+ tab +:+ "ALTER TABLE " +:+ dq +:+ "%v" +:+ dq +:+
  nl +:+ tab +:+ tab +:+ tab +:+ "ADD CONSTRAINT pkey PRIMARY KEY (%v);" +:+
  nl +:+ tab.
Definition createMigrationsTable : string :=
  nl +:+ tab +:+ tab +:+ "CREATE TABLE IF NOT EXISTS _migrations (" +:+
  nl +:+ "        " +:+ tab +:+ "id varchar(255) NOT NULL," +:+
  nl +:+ "        " +:+ tab +:+ "data text NOT NULL," +:+
  nl +:+ "        " +:+ tab +:+ "PRIMARY KEY (id)" +:+
  nl +:+ "    )".
Definition quoted : string := dq +:+ "%v" +:+ dq.
Definition commaQuoted : string := ", " +:+ dq +:+ "%v" +:+ dq.
Definition defaultClause : string := "DEFAULT '%v';".

End Sql.

(** ** The sync engine ([sync.go]) *)

Section SyncEngine.

Context (json : Json) (srv : Server).

Definition Exec (tx : Tx) (q : string) (a : list string) : Tx * option error :=
  let s := {| query := q; args := a |} in
  match exec_err srv (visible tx) s with
  | Some err =>
      ({| committed := committed tx; calls := calls tx ++ [(s, false)] |}, Some err)
  | None =>
      ({| committed := committed tx; calls := calls tx ++ [(s, true)] |}, None)
  end.

Definition applyAddTable (tx : Tx) (params : AddTableParams) : Tx * option error :=
  if Str.isBlank (at_Name params) then (tx, Some (Errorf "table is required" []))
  else
    let query := Str.Sprintf Sql.createTable [at_Name params] in
    match Exec tx query [] with
    | (tx, Some err) =>
        (tx, Some (Wrap "can't create table %v: %v/n" [at_Name params] err))
    | (tx, None) => (tx, None)
    end.

Definition applyDeleteTable (tx : Tx) (params : DeleteTableParams)
    : Tx * option error :=
  if Str.isBlank (dt_Name params) then (tx, Some (Errorf "table is required" []))
  else
    let query := Str.Sprintf Sql.dropTable [dt_Name params] in
    match Exec tx query [] with
    | (tx, Some err) =>
        (tx, Some (Wrap "can't delete table %v: %v/n" [dt_Name params] err))
    | (tx, None) => (tx, None)
    end.

Definition notNullParam (params : AddColumnParams) : string :=
  if negb (ac_IsNullable params) then "NOT NULL" else "".

Definition defaultValueParam (params : AddColumnParams) : string :=
  if decide (ac_DefaultValue params ≠ "")
  then Str.Sprintf Sql.defaultClause [ac_DefaultValue params]
  else "".

Definition applyAddColumn (tx : Tx) (params : AddColumnParams) : Tx * option error :=
  if Str.isBlank (ac_Table params) then (tx, Some (Errorf "table is required" []))
  else if Str.isBlank (ac_Column params)
  then (tx, Some (Errorf "column is required" []))
  else
    let columnType := ac_Type params in
    let query :=
      Str.Sprintf Sql.addColumn
        [ac_Table params; ac_Column params; columnType;
         notNullParam params; defaultValueParam params] in
    match Exec tx query [] with
    | (tx, Some err) =>
        (tx, Some (Wrap "can't add column '%v' to table '%v': %v/n"
                     [ac_Column params; ac_Table params] err))
    | (tx, None) => (tx, None)
    end.

Definition applyDeleteColumn (tx : Tx) (params : DeleteColumnParams)
    : Tx * option error :=
  let query := Str.Sprintf Sql.dropColumn [dc_Table params; dc_Column params] in
  match Exec tx query [] with
  | (tx, Some err) =>
      (tx, Some (Wrap "can't delete column '%v' at table '%v': %v/n"
                   [dc_Column params; dc_Table params] err))
  | (tx, None) => (tx, None)
  end.

(** The loop of [applyAddPrimaryKey] that builds the column list. *)
Fixpoint addKeys (index : nat) (primaryKeys : list string) (keys : string) : string :=
  match primaryKeys with
  | [] => keys
  | key :: primaryKeys =>
      let keys :=
        if decide (index = 0) then Str.Sprintf Sql.quoted [key]
        else keys +:+ Str.Sprintf Sql.commaQuoted [key] in
      addKeys (S index) primaryKeys keys
  end.

(** The loop of [applyDeletePrimaryKey] that builds the column list. *)
Fixpoint remainingKeys (primaryKeys : list string) (column : string)
    (keys : string) : string :=
  match primaryKeys with
  | [] => keys
  | key :: primaryKeys =>
      if decide (key = column) then remainingKeys primaryKeys column keys
      else
        let keys :=
          if decide (keys = "") then Str.Sprintf Sql.quoted [key]
          else keys +:+ Str.Sprintf Sql.commaQuoted [key] in
        remainingKeys primaryKeys column keys
  end.

Section WithSnapshot.

(** The snapshot function the two primary-key operations call. *)
Context (GetSnapshotWithAction : string → nat → error + Snapshot).

Definition applyAddPrimaryKey (tx : Tx) (migrationId : string) (actionIndex : nat)
    (params : AddPrimaryKeyParams) : Tx * option error :=
  match GetSnapshotWithAction migrationId actionIndex with
  | inl err => (tx, Some err)
  | inr snapshot =>
      match getTableFromSnapshot snapshot (apk_Table params) with
      | None => (tx, Some (Errorf "table '%v' doesn't exist" [apk_Table params]))
      | Some table =>
          match getColumnFromTable table (apk_Column params) with
          | None =>
              (tx, Some (Errorf "column '%v' doesn't exist" [apk_Column params]))
          | Some _ =>
              let dropped : Tx * option error :=
                if decide (1 < length (PrimaryKeys table)) then
                  Exec tx (Str.Sprintf Sql.dropConstraint [apk_Table params]) []
                else (tx, None) in
              match dropped with
              | (tx, Some err) => (tx, Some err)
              | (tx, None) =>
                  let keys := addKeys 0 (PrimaryKeys table) "" in
                  let query :=
                    Str.Sprintf Sql.addConstraint [apk_Table params; keys] in
                  match Exec tx query [] with
                  | (tx, Some err) =>
                      (tx, Some (Wrap "can't add primary key '%v' to table '%v': %v/n"
                                   [apk_Column params; apk_Table params] err))
                  | (tx, None) => (tx, None)
                  end
              end
          end
      end
  end.

Definition applyDeletePrimaryKey (tx : Tx) (migrationId : string)
    (actionIndex : nat) (params : DeletePrimaryKeyParams) : Tx * option error :=
  match GetSnapshotWithAction migrationId actionIndex with
  | inl err => (tx, Some err)
  | inr snapshot =>
      match getTableFromSnapshot snapshot (dpk_Table params) with
      | None => (tx, Some (Errorf "table '%v' doesn't exist" [dpk_Table params]))
      | Some table =>
          match Exec tx (Str.Sprintf Sql.dropConstraint [dpk_Table params]) [] with
          | (tx, Some err) => (tx, Some err)
          | (tx, None) =>
              let keys := remainingKeys (PrimaryKeys table) (dpk_Column params) "" in
              let query :=
                Str.Sprintf Sql.addConstraint [dpk_Table params; keys] in
              match Exec tx query [] with
              | (tx, Some err) =>
                  (tx, Some (Wrap "can't add primary key '%v' to table '%v': %v/n"
                               [dpk_Column params; dpk_Table params] err))
              | (tx, None) => (tx, None)
              end
          end
      end
  end.

(** The [switch] of [applyMigrationActions] with its type assertions; a
    method that is none of the six cases leaves [err] as it is, nil. *)
Definition applyDecoded (tx : Tx) (migrationId : string) (index : nat)
    (method : string) (params : Iface) : Tx * option error :=
  let mismatch : Tx * option error :=
    (tx, Some (Panic "interface conversion")) in
  if decide (method = "addTable") then
    match params with IAddTable p => applyAddTable tx p | _ => mismatch end
  else if decide (method = "deleteTable") then
    match params with IDeleteTable p => applyDeleteTable tx p | _ => mismatch end
  else if decide (method = "addColumn") then
    match params with IAddColumn p => applyAddColumn tx p | _ => mismatch end
  else if decide (method = "deleteColumn") then
    match params with IDeleteColumn p => applyDeleteColumn tx p | _ => mismatch end
  else if decide (method = "addPrimaryKey") then
    match params with
    | IAddPrimaryKey p => applyAddPrimaryKey tx migrationId index p
    | _ => mismatch
    end
  else if decide (method = "deletePrimaryKey") then
    match params with
    | IDeletePrimaryKey p => applyDeletePrimaryKey tx migrationId index p
    | _ => mismatch
    end
  else (tx, None).

(** The loop of [applyMigrationActions], from action number [index] on. *)
Fixpoint applyActionsFrom (tx : Tx) (migrationId : string) (index : nat)
    (actions : list Action) : Tx * option error :=
  match actions with
  | [] => (tx, None)
  | action :: actions =>
      match decodeAction json (Method action) (Params action) with
      | inl err => (tx, Some (Wrap "can't decode action %v/n" [] err))
      | inr (method, params) =>
          match applyDecoded tx migrationId index method params with
          | (tx, Some err) =>
              (tx, Some (Wrap "can't apply action %v %v: %v/n"
                           [method; showIface params] err))
          | (tx, None) => applyActionsFrom tx migrationId (S index) actions
          end
      end
  end.

Definition applyMigrationActions (tx : Tx) (migration : Migration)
    : Tx * option error :=
  applyActionsFrom tx (Id migration) 0 (Actions migration).

End WithSnapshot.

End SyncEngine.

Section Sync.

Context (json : Json) (srv : Server).

Definition addMigrationsTableIfNotExist (tx : Tx) : Tx * option error :=
  Exec srv tx Sql.createMigrationsTable [].

Definition addMigrationToMigrationsTable (tx : Tx) (migration : Migration)
    : Tx * option error :=
  let packedMigration := marshalMigration json migration in
  Exec srv tx insertMigrationQuery [Id migration; packedMigration].

(** [sql.ErrNoRows] is turned into the empty id. *)
Definition getCurrentSyncedMigrationId (tx : Tx) : string * option error :=
  match scan_err srv (visible tx) with
  | Some err => ("", Some err)
  | None => (default "" (maxId (migrationRows (visible tx))), None)
  end.

(** How a run of [Sync] ends. *)
Inductive Outcome :=
| NotStarted (err : error)
    (** returned [err] before a transaction was opened *)
| NilTransaction
    (** [db.Begin] failed: [Rollback] is called on the nil transaction *)
| RolledBack (tx : Tx) (err : error)
    (** [transaction.Rollback()], then returned [err] *)
| Abandoned (tx : Tx) (err : error)
    (** returned [err] with the transaction neither committed nor rolled
        back; the deferred [db.Close()] runs *)
| CommitFailed (tx : Tx) (err : error)
    (** [transaction.Commit()] returned [err] *)
| Committed (tx : Tx).
    (** [transaction.Commit()] returned nil *)

(** The loop of [Sync] over the migrations. [log] is the whole list, for
    the snapshots of the primary-key operations. The result of
    [addMigrationToMigrationsTable] is not assigned: the test after it reads
    the [err] left by [applyMigrationActions]. *)
Fixpoint Sync_loop (log migrations : list Migration) (currentMigrationId : string)
    (isCurrentMigrationPassed : bool) (tx : Tx) : Tx * option error :=
  match migrations with
  | [] => (tx, None)
  | migration :: migrations =>
      if decide (Id migration = currentMigrationId)
      then Sync_loop log migrations currentMigrationId true tx
      else if negb isCurrentMigrationPassed
      then Sync_loop log migrations currentMigrationId isCurrentMigrationPassed tx
      else
        match applyMigrationActions json srv (snapshotAsOf json log) tx migration with
        | (tx, Some err) =>
            (tx, Some (Wrap "can't apply migration %v: %v/n" [Id migration] err))
        | (tx, None) =>
            let err : option error := None in
            let tx := (addMigrationToMigrationsTable tx migration).1 in
            match err with
            | Some err =>
                (tx, Some (Wrap "can't add migration to migrations table %v: %v/n"
                             [Id migration] err))
            | None =>
                Sync_loop log migrations currentMigrationId isCurrentMigrationPassed tx
            end
        end
  end.

Definition Sync (d : Disk) (db : list Stmt) : Outcome :=
  match GetList json d with
  | inl err => NotStarted (Wrap "can't read migrations: %v/n" [] err)
  | inr migrations =>
  match open_err srv with
  | Some err => NotStarted (Wrap "can't connect to db: %v" [] err)
  | None =>
  match ping_err srv with
  | Some err => NotStarted (Wrap "can't connect to db: %v" [] err)
  | None =>
  match begin_err srv with
  | Some _ => NilTransaction
  | None =>
  let transaction := begin db in
  match addMigrationsTableIfNotExist transaction with
  | (transaction, Some err) =>
      RolledBack transaction (Wrap "can't add migration table: %v" [] err)
  | (transaction, None) =>
  match getCurrentSyncedMigrationId transaction with
  | (_, Some err) =>
      RolledBack transaction (Wrap "can't read current migration state: %v" [] err)
  | (currentMigrationId, None) =>
  match GetCurrentSnapshot json migrations with
  | inl err => Abandoned transaction err
  | inr _ =>
  let isCurrentMigrationPassed := bool_decide (currentMigrationId = "") in
  match Sync_loop migrations migrations currentMigrationId
          isCurrentMigrationPassed transaction with
  | (transaction, Some err) => RolledBack transaction err
  | (transaction, None) =>
      match commit_err srv (visible transaction) with
      | Some err => CommitFailed transaction err
      | None => Committed transaction
      end
  end end end end end end end end.

(** The statements the store holds after the run. *)
Definition durable (db : list Stmt) (o : Outcome) : list Stmt :=
  match o with
  | Committed tx => visible tx
  | _ => db
  end.

(** The statements the run passed to [Exec]. *)
Definition statements (o : Outcome) : list Stmt :=
  match o with
  | NotStarted _ | NilTransaction => []
  | RolledBack tx _ | Abandoned tx _ | CommitFailed tx _ | Committed tx => sent tx
  end.


End Sync.

(** ** Appending to the log ([migration.go]) *)

Section Append.

Context (json : Json).

Definition WriteFile (d : Disk) (path content : string) : Disk * option error :=
  match write_err d path with
  | Some err => (d, Some err)
  | None =>
      ({| getwd_err := getwd_err d;
          files := <[path := content]> (files d);
          write_err := write_err d |}, None)
  end.

Definition addActionToMigrationFile (d : Disk) (method : string) (params : Iface)
    : Disk * (error + string) :=
  match GetList json d with
  | inl err => (d, inl (Wrap "can't get migration %v/n" [] err))
  | inr migrations =>
      let migrationsSize := length migrations in
      if decide (migrationsSize = 0)
      then (d, inl (Errorf "migration doesn't exist, please add migration/n" []))
      else
        match previewWithHypothetical json migrations method params with
        | inl err => (d, inl err)
        | inr _ =>
            let packedParams := marshalIndentIface json params in
            match migrations !! (migrationsSize - 1) with
            | None => (d, inl (Panic "index out of range"))
            | Some lastMigration =>
                let action := {| Method := method; Params := packedParams |} in
                let lastMigration :=
                  {| SchemaVersion := SchemaVersion lastMigration;
                     Id := Id lastMigration;
                     Description := Description lastMigration;
                     Actions := Actions lastMigration ++ [action] |} in
                let packedMigration := marshalIndentMigration json lastMigration in
                match getMigrationPath d (Id lastMigration) with
                | inl _ => (d, inl (Errorf "can't write migration/n" []))
                | inr migrationPath =>
                    match WriteFile d migrationPath packedMigration with
                    | (d, Some _) => (d, inl (Errorf "can't write migration/n" []))
                    | (d, None) => (d, inr (Id lastMigration))
                    end
                end
            end
        end
  end.

Definition AddTable (d : Disk) (tableName : string) : Disk * (error + string) :=
  if Str.isBlank tableName then (d, inl (Errorf "table name is required /n" []))
  else addActionToMigrationFile d "addTable" (IAddTable {| at_Name := tableName |}).

Definition DeleteTable (d : Disk) (tableName : string) : Disk * (error + string) :=
  if Str.isBlank tableName then (d, inl (Errorf "table name is required /n" []))
  else addActionToMigrationFile d "deleteTable"
         (IDeleteTable {| dt_Name := tableName |}).

Definition AddColumn (d : Disk) (tableName columnName columnType : string)
    (isNullable : bool) (defaultValue : string) : Disk * (error + string) :=
  if Str.isBlank tableName then (d, inl (Errorf "table name is required /n" []))
  else if Str.isBlank columnName
  then (d, inl (Errorf "column name is required /n" []))
  else if Str.isBlank columnType
  then (d, inl (Errorf "column type is required /n" []))
  else addActionToMigrationFile d "addColumn"
         (IAddColumn {| ac_Table := tableName; ac_Column := columnName;
                        ac_Type := columnType; ac_IsNullable := isNullable;
                        ac_DefaultValue := defaultValue |}).




End Append.

(** ** A concrete log, codec and server

    The migration files below are the texts [json.MarshalIndent] writes.
    [Example.json] is [encoding/json] restricted to these documents: it
    parses a text exactly when it is one of them. *)

Module Example.
Import Str.

(** The members of a parameter struct, in field order. *)
Definition members (v : Iface) : list (string * string) :=
  match v with
  | INil => []
  | IAddTable p => [("name", quote (at_Name p))]
  | IDeleteTable p => [("name", quote (dt_Name p))]
  | IAddColumn p =>
      [("table", quote (ac_Table p)); ("column", quote (ac_Column p));
       ("type", quote (ac_Type p)); ("isNullable", showBool (ac_IsNullable p));
       ("defaultValue", quote (ac_DefaultValue p))]
  | IDeleteColumn p =>
      [("table", quote (dc_Table p)); ("column", quote (dc_Column p))]
  | IAddPrimaryKey p =>
      [("table", quote (apk_Table p)); ("column", quote (apk_Column p))]
  | IDeletePrimaryKey p =>
      [("table", quote (dpk_Table p)); ("column", quote (dpk_Column p))]
  end.

(** An object as [json.MarshalIndent(v, pad, "  ")] lays it out. *)
Definition indented (pad : string) (ms : list (string * string)) : string :=
  "{" +:+ nl +:+
  join ("," +:+ nl) ((λ kv, pad +:+ "  " +:+ quote kv.1 +:+ ": " +:+ kv.2) <$> ms)
  +:+ nl +:+ pad +:+ "}".

(** An object as [json.Marshal] lays it out. *)
Definition compact (ms : list (string * string)) : string :=
  "{" +:+ join "," ((λ kv, quote kv.1 +:+ ":" +:+ kv.2) <$> ms) +:+ "}".

(** A migration document: id, description, and for each action its method
    and the members of its parameters. *)
Record Doc := {
  doc_id : string;
  doc_description : string;
  doc_steps : list (string * list (string * string)) }.

Definition inFile : string := "      ".

Definition indentedStep (step : string * list (string * string)) : string :=
  indented "    " [("method", quote step.1); ("params", indented inFile step.2)].

Definition indentedDoc (d : Doc) : string :=
  indented ""
    [("schemaVersion", quote "1"); ("id", quote (doc_id d));
     ("description", quote (doc_description d));
     ("actions",
      match doc_steps d with
      | [] => "[]"
      | steps =>
          "[" +:+ nl +:+ "    " +:+
          join ("," +:+ nl +:+ "    ") (indentedStep <$> steps)
          +:+ nl +:+ "  ]"
      end)].

Definition compactDoc (d : Doc) : string :=
  compact
    [("schemaVersion", quote "1"); ("id", quote (doc_id d));
     ("description", quote (doc_description d));
     ("actions",
      "[" +:+
      join "," ((λ step, compact [("method", quote step.1);
                                  ("params", compact step.2)]) <$> doc_steps d)
      +:+ "]")].

(** The value [json.Unmarshal] fills in: raw parameters keep the bytes
    they have in the file. *)
Definition parsed (d : Doc) : Migration :=
  {| SchemaVersion := "1"; Id := doc_id d; Description := doc_description d;
     Actions := (λ step, {| Method := step.1; Params := indented inFile step.2 |})
                  <$> doc_steps d |}.

Definition users : Iface := IAddTable {| at_Name := "users" |}.
Definition email : Iface :=
  IAddColumn {| ac_Table := "users"; ac_Column := "email"; ac_Type := "text";
                ac_IsNullable := true; ac_DefaultValue := "" |}.
Definition name : Iface :=
  IAddColumn {| ac_Table := "users"; ac_Column := "name"; ac_Type := "text";
                ac_IsNullable := false; ac_DefaultValue := "anonymous" |}.
Definition keyEmail : Iface :=
  IAddPrimaryKey {| apk_Table := "users"; apk_Column := "email" |}.
Definition keyName : Iface :=
  IAddPrimaryKey {| apk_Table := "users"; apk_Column := "name" |}.
Definition unkeyEmail : Iface :=
  IDeletePrimaryKey {| dpk_Table := "users"; dpk_Column := "email" |}.
Definition dropEmail : Iface :=
  IDeleteColumn {| dc_Table := "users"; dc_Column := "email" |}.

Definition known : list Iface :=
  [users; email; name; keyEmail; keyName; unkeyEmail; dropEmail].

Definition doc1 : Doc :=
  {| doc_id := "20240101000000"; doc_description := "users";
     doc_steps := [("addTable", members users)] |}.
Definition doc2 : Doc :=
  {| doc_id := "20240102000000"; doc_description := "email";
     doc_steps := [("addColumn", members email);
                   ("addPrimaryKey", members keyEmail)] |}.
Definition doc3 : Doc :=
  {| doc_id := "20240103000000"; doc_description := "name";
     doc_steps := [("addColumn", members name);
                   ("addPrimaryKey", members keyName)] |}.
Definition doc4 : Doc :=
  {| doc_id := "20240104000000"; doc_description := "no key";
     doc_steps := [("deletePrimaryKey", members unkeyEmail)] |}.
Definition doc5 : Doc :=
  {| doc_id := "20240105000000"; doc_description := "rename";
     doc_steps := [("renameColumn", [("oldName", quote "email");
                                     ("newName", quote "mail")]);
                   ("addColumn", members name)] |}.
Definition doc6 : Doc :=
  {| doc_id := "20240106000000"; doc_description := "empty";
     doc_steps := [] |}.
Definition doc6' : Doc :=
  {| doc_id := "20240106000000"; doc_description := "empty";
     doc_steps := [("addColumn", members name)] |}.

Definition docs : list Doc := [doc1; doc2; doc3; doc4; doc5; doc6; doc6'].

Definition m1 : Migration := parsed doc1.
Definition m2 : Migration := parsed doc2.
Definition m3 : Migration := parsed doc3.
Definition m4 : Migration := parsed doc4.
Definition m5 : Migration := parsed doc5.
Definition m6 : Migration := parsed doc6.

Definition syntaxError : error := External "unexpected end of JSON input".
Definition typeError : error := External "json: cannot unmarshal".

Definition findParams (raw : RawMessage) : option Iface :=
  head (filter (λ v, indented inFile (members v) = raw
                     ∨ indented "" (members v) = raw) known).

Definition findDoc (m : Migration) : Doc :=
  {| doc_id := Id m; doc_description := Description m;
     doc_steps :=
       (λ a, (Method a,
              match findParams (Params a) with
              | Some v => members v
              | None => []
              end)) <$> Actions m |}.

Definition json : Json :=
  {| unmarshalMigration raw :=
       match head (filter (λ d, indentedDoc d = raw) docs) with
       | Some d => inr (parsed d)
       | None => inl syntaxError
       end;
     unmarshalAddTable raw :=
       match findParams raw with
       | Some (IAddTable p) => inr p | _ => inl typeError end;
     unmarshalDeleteTable raw :=
       match findParams raw with
       | Some (IDeleteTable p) => inr p | _ => inl typeError end;
     unmarshalAddColumn raw :=
       match findParams raw with
       | Some (IAddColumn p) => inr p | _ => inl typeError end;
     unmarshalDeleteColumn raw :=
       match findParams raw with
       | Some (IDeleteColumn p) => inr p | _ => inl typeError end;
     unmarshalAddPrimaryKey raw :=
       match findParams raw with
       | Some (IAddPrimaryKey p) => inr p | _ => inl typeError end;
     unmarshalDeletePrimaryKey raw :=
       match findParams raw with
       | Some (IDeletePrimaryKey p) => inr p | _ => inl typeError end;
     marshalIndentIface v := indented "" (members v);
     marshalIndentMigration m := indentedDoc (findDoc m);
     marshalMigration m := compactDoc (findDoc m) |}.

Definition disk (ds : list Doc) : Disk :=
  {| getwd_err := None;
     files := list_to_map ((λ d, (doc_id d +:+ ".json", indentedDoc d)) <$> ds);
     write_err := λ _, None |}.

(** A store left by another log: its only bookkeeping row has an id
    that no document above has. *)
Definition stale : list Stmt :=
  [{| query := insertMigrationQuery; args := ["20230101000000"; "{}"] |}].

(** A server that accepts every call. *)
Definition server : Server :=
  {| open_err := None; ping_err := None; begin_err := None;
     exec_err := λ _ _, None; scan_err := λ _, None; commit_err := λ _, None |}.

Definition refused : error := External "pq: permission denied for table _migrations".

(** A server that refuses the inserts into [_migrations] and accepts
    every other call. *)
Definition readOnlyBookkeeping : Server :=
  {| open_err := None; ping_err := None; begin_err := None;
     exec_err := λ _ s,
       if decide (query s = insertMigrationQuery) then Some refused else None;
     scan_err := λ _, None; commit_err := λ _, None |}.

End Example.

(** ** Vocabulary of the statements below *)

(** The six methods [decodeAction] knows. *)
Definition recognized (method : string) : Prop :=
  method ∈ ["addTable"; "deleteTable"; "addColumn"; "deleteColumn";
            "addPrimaryKey"; "deletePrimaryKey"].

(** The statement that creates the bookkeeping table. *)
Definition setup : Stmt := {| query := Sql.createMigrationsTable; args := [] |}.

(** The statement that records a migration in the bookkeeping table. *)
Definition insertOf (json : Json) (m : Migration) : Stmt :=
  {| query := insertMigrationQuery; args := [Id m; marshalMigration json m] |}.

(** A run applies a migration when it gets as far as recording it. *)
Definition applies (json : Json) (o : Outcome) (m : Migration) : Prop :=
  insertOf json m ∈ statements o.

(** The migrations the loop of [Sync] does not skip. *)
Fixpoint pending (migrations : list Migration) (currentMigrationId : string)
    (isCurrentMigrationPassed : bool) : list Migration :=
  match migrations with
  | [] => []
  | m :: migrations =>
      if decide (Id m = currentMigrationId) then pending migrations currentMigrationId true
      else if isCurrentMigrationPassed
      then m :: pending migrations currentMigrationId isCurrentMigrationPassed
      else pending migrations currentMigrationId isCurrentMigrationPassed
  end.

(** The ids of the log go up strictly, byte-wise. *)
Definition ascending (log : list Migration) : Prop :=
  StronglySorted (strict String.le) (Id <$> log).

(** No call of the transaction was refused by the server. *)
Definition unrefused (tx : Tx) : Prop := Forall (λ c, c.2 = true) (calls tx).

(** The rows of [_migrations] that the calls of a transaction add. *)
Definition rowsOf (cs : list (Stmt * bool)) : list string :=
  migrationRows (filter (λ c, c.2 = true) cs).*1.

(** [tx'] is [tx] after some more calls, none of them a bookkeeping
    insert. *)
Definition extendedByDDL (tx tx' : Tx) : Prop :=
  committed tx' = committed tx
  ∧ ∃ new, calls tx' = calls tx ++ new
           ∧ Forall (λ c, query c.1 ≠ insertMigrationQuery) new.

(** The run records every migration of the log that [GetList] reads. *)
Definition reappliesAll (json : Json) (srv : Server) (d : Disk) (db : list Stmt)
    : Prop :=
  ∀ log m, GetList json d = inr log → m ∈ log → applies json (Sync json srv d db) m.

(** The text [applyAddColumn] is to send, written out. *)
Definition addColumnText (table column columnType notNull defaultValue : string)
    : string :=
  Str.concat
    [Str.nl; Str.tab; Str.tab; "ALTER TABLE "; Str.dq; table; Str.dq;
     Str.nl; Str.tab; Str.tab; Str.tab; "ADD COLUMN "; Str.dq; column; Str.dq;
     " "; columnType; " "; notNull; " "; defaultValue; Str.nl; Str.tab].

(** The texts of the two primary-key statements, written out. *)
Definition dropConstraintText (table : string) : string :=
  Str.concat
    [Str.nl; Str.tab; Str.tab; Str.tab; "ALTER TABLE "; Str.dq; table; Str.dq;
     Str.nl; Str.tab; Str.tab; Str.tab; Str.tab; "DROP CONSTRAINT pkey";
     Str.nl; Str.tab; Str.tab].

Definition addConstraintText (table keys : string) : string :=
  Str.concat
    [Str.nl; Str.tab; Str.tab; "ALTER TABLE "; Str.dq; table; Str.dq;
     Str.nl; Str.tab; Str.tab; Str.tab; "ADD CONSTRAINT pkey PRIMARY KEY (";
     keys; ");"; Str.nl; Str.tab].

(** The key columns a snapshot lists for a table. *)
Definition keysOf (r : error + Snapshot) (table : string) : option (list string) :=
  match r with
  | inr s => PrimaryKeys <$> getTableFromSnapshot s table
  | inl _ => None
  end.

(** A comma-separated list of quoted column names. *)
Definition columnList (keys : list string) : string :=
  Str.join ", " (Str.quote <$> keys).

(** ** Creating a migration ([migration.go]) *)

(** What [os.Stat] reports for the migrations directory. *)
Inductive StatResult :=
| StatOk
| StatNotExist
| StatError (err : error).

(** [AddMigration]. [now] is [time.Now().UTC().Format("20060102150405")];
    [stat] and [mkdir_err] are what [os.Stat] and [os.Mkdir] answer for the
    migrations directory. Marshalling a migration without actions cannot
    fail. *)
Definition AddMigration (json : Json) (d : Disk) (now : string)
    (stat : StatResult) (mkdir_err : option error) (description : string)
    : Disk * option error :=
  let id := now in
  let fileName := id +:+ ".json" in
  let migration :=
    {| SchemaVersion := "1"; Id := id; Description := description;
       Actions := [] |} in
  match getwd_err d with
  | Some err => (d, Some err)
  | None =>
      let ready :=
        match stat with
        | StatOk => None
        | StatError err => Some err
        | StatNotExist => mkdir_err
        end in
      match ready with
      | Some err => (d, Some err)
      | None =>
          let packedMigration := marshalIndentMigration json migration in
          WriteFile d fileName packedMigration
      end
  end.

(** The migration [AddMigration] writes. *)
Definition newMigration (now description : string) : Migration :=
  {| SchemaVersion := "1"; Id := now; Description := description; Actions := [] |}.

(** The file names [GetList] reads, in the order it reads them. *)
Definition listedNames (d : Disk) : list string := sortStrings (globJson d).

(** A disk with one more file, or one file replaced. *)
Definition withFile (d : Disk) (name text : string) : Disk :=
  {| getwd_err := getwd_err d;
     files := <[name := text]> (files d);
     write_err := write_err d |}.

(** ** More concrete servers and values *)

Module Sample.

Definition denied : error := External "pq: permission denied".

(** A server that refuses the statements whose text is [q] and accepts
    every other call. *)
Definition refusing (q : string) : Server :=
  {| open_err := None; ping_err := None; begin_err := None;
     exec_err := λ _ s, if decide (query s = q) then Some denied else None;
     scan_err := λ _, None; commit_err := λ _, None |}.

Definition createUsers : string := Str.Sprintf Sql.createTable ["users"].

(** A store that has recorded the first two migrations of the example
    log. *)
Definition synced : list Stmt :=
  [{| query := insertMigrationQuery; args := ["20240101000000"; "{}"] |};
   {| query := insertMigrationQuery; args := ["20240102000000"; "{}"] |}].

(** A snapshot function that always returns the same snapshot. *)
Definition always (s : Snapshot) : string → nat → error + Snapshot :=
  λ _ _, inr s.

Definition column : Column :=
  {| col_Type := "text"; col_IsNullable := true; col_DefaultValue := "" |}.

(** A snapshot with one table [users], columns [id], [email] and [name],
    and the keys [id] and [email]. *)
Definition keyed : Snapshot :=
  {[ "users" := {| Columns := [("id", column); ("email", column); ("name", column)];
                   PrimaryKeys := ["id"; "email"] |} ]}.

End Sample.

(** [tx'] is [tx] after some more calls, all of them accepted. *)
Definition acceptedSince (tx tx' : Tx) : Prop :=
  ∃ new, calls tx' = calls tx ++ new ∧ Forall (λ c, c.2 = true) new.

(** The only calls of a transaction that the server refused are
    bookkeeping inserts. *)
Definition onlyInsertsRefused (cs : list (Stmt * bool)) : Prop :=
  Forall (λ c, c.2 = false → query c.1 = insertMigrationQuery) cs.


(** * Properties *)

(** ** Strings *)

Lemma skipSpace_shorter s s' :
  Str.skipSpace s = Some s' → String.length s' < String.length s.
Proof.
  unfold Str.skipSpace. intros H.
  destruct s as [|c [|c1 [|c2 s3]]]; repeat case_match; simplify_eq; simpl; lia.
Qed.

(** The fuel of [isBlank] never runs out: more of it changes nothing. *)
Lemma allSpace_fuel n m s :
  String.length s ≤ n → String.length s ≤ m →
  Str.allSpace n s = Str.allSpace m s.
Proof.
  revert m s. induction n as [|n IH]; intros m s Hn Hm.
  - destruct s; [by destruct m|simpl in Hn; lia].
  - destruct s as [|c s]; [by destruct m|].
    destruct m as [|m]; [simpl in Hm; lia|].
    cbn [Str.allSpace].
    destruct (Str.skipSpace (String c s)) as [s'|] eqn:Hskip; [|done].
    apply skipSpace_shorter in Hskip. apply IH; lia.
Qed.

Lemma isBlank_examples :
  Str.isBlank "" = true
  ∧ Str.isBlank (" " +:+ Str.tab +:+ Str.nl) = true
  ∧ Str.isBlank (String (ascii_of_nat 194) (String (ascii_of_nat 160) "")) = true
  ∧ Str.isBlank (String (ascii_of_nat 160) "") = false
  ∧ Str.isBlank " users " = false.
Proof. by vm_compute. Qed.

(** ** The log store *)

Section LogStoreFacts.

Context (json : Json).

Lemma GetText_no_error d id : ∃ text, GetText d id = inr text.
Proof. unfold GetText. destruct (getMigrationPath d id); eauto. Qed.

Lemma GetText_absent d id :
  files d !! (id +:+ ".json") = None → GetText d id = inr "".
Proof.
  intros Hnone. unfold GetText, getMigrationPath.
  destruct (getwd_err d); [done|]. by rewrite Hnone.
Qed.

(** Reading a migration that has no file ends in the parse error of the
    empty text. *)
Lemma Get_absent d id err :
  files d !! (id +:+ ".json") = None →
  unmarshalMigration json "" = inl err →
  Get json d id = inl (Wrap "can't parse migration: %v/n" [] err).
Proof.
  intros Hnone Hparse. unfold Get.
  rewrite (GetText_absent _ _ Hnone). by rewrite Hparse.
Qed.

End LogStoreFacts.

(** C7, at a migration id that has no file: [Get] does not report that
    the migration is missing. [GetText] drops the error of the read, so [Get]
    parses the empty text and returns the parse error "can't parse
    migration" with the JSON library's "unexpected end of JSON input". *)
Theorem Get_missing_reports_parse_error :
  files (Example.disk [Example.doc1]) !! "20990101000000.json" = None ∧
  GetText (Example.disk [Example.doc1]) "20990101000000" = inr "" ∧
  Get Example.json (Example.disk [Example.doc1]) "20990101000000"
  = inl (Wrap "can't parse migration: %v/n" []
           (External "unexpected end of JSON input")).
Proof. by vm_compute. Qed.

(** ** The statements of the sync engine *)

Section ExecFacts.

Context (srv : Server).

Lemma Exec_calls tx q a :
  ∃ ok, calls (Exec srv tx q a).1 = calls tx ++ [({| query := q; args := a |}, ok)]
        ∧ committed (Exec srv tx q a).1 = committed tx
        ∧ (ok = true ↔ (Exec srv tx q a).2 = None).
Proof.
  unfold Exec. destruct (exec_err srv (visible tx) _); simpl.
  - exists false. by intuition.
  - exists true. by intuition.
Qed.

Lemma Exec_sent tx q a :
  sent (Exec srv tx q a).1 = sent tx ++ [{| query := q; args := a |}].
Proof.
  destruct (Exec_calls tx q a) as (ok & Hcalls & _).
  unfold sent. rewrite Hcalls. by rewrite fmap_app.
Qed.

Lemma addColumn_text table column columnType notNull defaultValue :
  Str.Sprintf Sql.addColumn [table; column; columnType; notNull; defaultValue]
  = addColumnText table column columnType notNull defaultValue.
Proof. reflexivity. Qed.

Lemma dropConstraint_text table :
  Str.Sprintf Sql.dropConstraint [table] = dropConstraintText table.
Proof. reflexivity. Qed.

Lemma addConstraint_text table keys :
  Str.Sprintf Sql.addConstraint [table; keys] = addConstraintText table keys.
Proof. reflexivity. Qed.

(** C8: when [applyAddColumn] passes its two guards it sends exactly one
    statement, [ALTER TABLE "t" ADD COLUMN "c" type nn dv], where [nn] is
    [NOT NULL] when the action is not nullable and empty when it is, and
    [dv] is [DEFAULT 'v';] when the default value [v] is not empty and empty
    when it is. *)
Theorem applyAddColumn_statement tx params :
  Str.isBlank (ac_Table params) = false →
  Str.isBlank (ac_Column params) = false →
  ∃ notNull defaultValue,
    sent (applyAddColumn srv tx params).1
    = sent tx ++
      [{| query := addColumnText (ac_Table params) (ac_Column params)
                     (ac_Type params) notNull defaultValue;
          args := [] |}]
    ∧ (ac_IsNullable params = false → notNull = "NOT NULL")
    ∧ (ac_IsNullable params = true → notNull = "")
    ∧ (ac_DefaultValue params ≠ "" →
       defaultValue = "DEFAULT '" +:+ ac_DefaultValue params +:+ "';")
    ∧ (ac_DefaultValue params = "" → defaultValue = "").
Proof.
  intros Htable Hcolumn.
  exists (notNullParam params), (defaultValueParam params).
  split.
  - unfold applyAddColumn. rewrite Htable, Hcolumn. cbv zeta.
    rewrite addColumn_text.
    pose proof (Exec_sent tx
      (addColumnText (ac_Table params) (ac_Column params) (ac_Type params)
         (notNullParam params) (defaultValueParam params)) []) as Hsent.
    by destruct (Exec srv tx _ []) as [tx' [err|]].
  - unfold notNullParam, defaultValueParam.
    repeat split; intros H.
    + by rewrite H.
    + by rewrite H.
    + by rewrite decide_True.
    + by rewrite decide_False by naive_solver.
Qed.

(** A blank table or column name stops [applyAddColumn] before any
    statement. *)
Lemma applyAddColumn_blank tx params :
  Str.isBlank (ac_Table params) = true ∨ Str.isBlank (ac_Column params) = true →
  ∃ err, applyAddColumn srv tx params = (tx, Some err).
Proof.
  unfold applyAddColumn. intros [H|H].
  - rewrite H. eauto.
  - rewrite H. destruct (Str.isBlank (ac_Table params)); eauto.
Qed.

End ExecFacts.

Lemma applyAddColumn_statement_witness :
  ∃ notNull defaultValue,
    sent (applyAddColumn Example.server (begin [])
            {| ac_Table := "users"; ac_Column := "name"; ac_Type := "text";
               ac_IsNullable := false; ac_DefaultValue := "anonymous" |}).1
    = [{| query := addColumnText "users" "name" "text" notNull defaultValue;
          args := [] |}]
    ∧ notNull = "NOT NULL" ∧ defaultValue = "DEFAULT 'anonymous';".
Proof.
  destruct (applyAddColumn_statement Example.server (begin [])
              {| ac_Table := "users"; ac_Column := "name"; ac_Type := "text";
                 ac_IsNullable := false; ac_DefaultValue := "anonymous" |})
    as (notNull & defaultValue & Hsent & Hnn & _ & Hdv & _);
    [reflexivity | reflexivity |].
  exists notNull, defaultValue. split; [exact Hsent|].
  split; [by apply Hnn | by apply Hdv].
Defined.

Section DecodeFacts.

Context (json : Json) (srv : Server).
Context (GetSnapshotWithAction : string → nat → error + Snapshot).

Lemma decodeAction_unknown method params :
  ¬ recognized method → decodeAction json method params = inr ("", INil).
Proof.
  unfold recognized, decodeAction. intros Hnot.
  repeat case_decide; try done; exfalso; apply Hnot; subst; set_solver.
Qed.

(** C10: an action whose method is none of the six recognized ones
    decodes without error, to the empty method and nil parameters, and the
    apply loop sends nothing for it and goes on with the next action. *)
Theorem unknown_method_skipped tx migrationId index action actions :
  ¬ recognized (Method action) →
  decodeAction json (Method action) (Params action) = inr ("", INil)
  ∧ applyActionsFrom json srv GetSnapshotWithAction tx migrationId index
      (action :: actions)
    = applyActionsFrom json srv GetSnapshotWithAction tx migrationId (S index)
        actions.
Proof.
  intros Hnot. split; [by apply decodeAction_unknown|].
  simpl. by rewrite decodeAction_unknown.
Qed.

End DecodeFacts.

Lemma unknown_method_skipped_witness :
  ¬ recognized "renameColumn"
  ∧ sent (applyMigrationActions Example.json Example.server
            (snapshotAsOf Example.json [Example.m1; Example.m2; Example.m5])
            (begin []) Example.m5).1
    = [{| query := addColumnText "users" "name" "text" "NOT NULL"
                     "DEFAULT 'anonymous';";
          args := [] |}].
Proof.
  assert (Hnot : ¬ recognized "renameColumn").
  { unfold recognized. intros H. repeat (apply elem_of_cons in H as [H|H]; [done|]).
    by apply elem_of_nil in H. }
  split; [exact Hnot|].
  unfold applyMigrationActions.
  pose proof (unknown_method_skipped Example.json Example.server
    (snapshotAsOf Example.json [Example.m1; Example.m2; Example.m5])
    (begin []) (Id Example.m5) 0
    {| Method := "renameColumn";
       Params := Example.indented Example.inFile
                   [("oldName", Str.quote "email"); ("newName", Str.quote "mail")] |}
    [{| Method := "addColumn";
        Params := Example.indented Example.inFile (Example.members Example.name) |}]
    Hnot) as [_ Hskip].
  change (Actions Example.m5) with
    [{| Method := "renameColumn";
        Params := Example.indented Example.inFile
                    [("oldName", Str.quote "email"); ("newName", Str.quote "mail")] |};
     {| Method := "addColumn";
        Params := Example.indented Example.inFile (Example.members Example.name) |}].
  rewrite Hskip. by vm_compute.
Defined.

(** ** The snapshot fold *)

Lemma lookupColumn_removed cols c : lookupColumn (removeColumn cols c) c = None.
Proof.
  unfold removeColumn. induction cols as [|[n col] cols IH]; [done|].
  rewrite filter_cons. simpl. destruct (decide (n = c)) as [->|Hn].
  - rewrite decide_False; [done|by intros H].
  - rewrite decide_True by done. simpl. by rewrite decide_False.
Qed.

Lemma lookupColumn_kept cols c c' :
  c' ≠ c → lookupColumn (removeColumn cols c) c' = lookupColumn cols c'.
Proof.
  intros Hne. unfold removeColumn. induction cols as [|[n col] cols IH]; [done|].
  rewrite filter_cons. simpl. destruct (decide (n = c)) as [->|Hn].
  - rewrite decide_False; [|by intros H]. by rewrite (decide_False (P := c = c')).
  - rewrite decide_True by done. simpl. by rewrite IH.
Qed.

Lemma removeKey_gone keys c : c ∉ removeKey keys c.
Proof. unfold removeKey. rewrite list_elem_of_filter. by intros [Hne _]. Qed.

Lemma removeKey_absent keys c : c ∉ keys → removeKey keys c = keys.
Proof.
  unfold removeKey. induction keys as [|k keys IH]; [done|].
  intros Hnotin. apply not_elem_of_cons in Hnotin as [Hne Hnotin].
  rewrite filter_cons, decide_True by done. by rewrite IH.
Qed.

(** C9: in the snapshot fold, [DeleteColumn(t, c)] on a state where table
    [t] exists and has column [c] removes the column and takes [c] out of
    the primary-key list of [t], leaving the other columns, the other keys
    and their order as they were; when [t] or [c] is absent the fold fails
    with a not-found error. *)
Theorem DeleteColumn_fold (s : Snapshot) t c :
  (∀ table, s !! t = Some table → is_Some (getColumnFromTable table c) →
     ∃ table',
       applyAction s (IDeleteColumn {| dc_Table := t; dc_Column := c |})
       = inr (<[t := table']> s)
       ∧ getColumnFromTable table' c = None
       ∧ (∀ c', c' ≠ c → getColumnFromTable table' c' = getColumnFromTable table c')
       ∧ (c ∉ PrimaryKeys table')
       ∧ PrimaryKeys table' = filter (λ k, k ≠ c) (PrimaryKeys table)
       ∧ (c ∉ PrimaryKeys table → PrimaryKeys table' = PrimaryKeys table))
  ∧ (s !! t = None
     ∨ (∃ table, s !! t = Some table ∧ getColumnFromTable table c = None) →
     applyAction s (IDeleteColumn {| dc_Table := t; dc_Column := c |})
     = inl (Kind NotFoundError)).
Proof.
  split.
  - intros table Htable [col Hcol].
    exists {| Columns := removeColumn (Columns table) c;
              PrimaryKeys := removeKey (PrimaryKeys table) c |}.
    simpl. rewrite Htable, Hcol. split; [done|].
    unfold getColumnFromTable. simpl.
    split; [apply lookupColumn_removed|].
    split; [intros c' Hne; apply lookupColumn_kept, Hne|].
    split; [apply removeKey_gone|].
    split; [done|apply removeKey_absent].
  - intros [Hnone|(table & Htable & Hcol)]; simpl.
    + by rewrite Hnone.
    + by rewrite Htable, Hcol.
Qed.

Lemma DeleteColumn_fold_witness :
  let column := {| col_Type := "text"; col_IsNullable := true;
                   col_DefaultValue := "" |} in
  let table := {| Columns := [("id", column); ("email", column)];
                  PrimaryKeys := ["id"; "email"] |} in
  let s : Snapshot := {[ "users" := table ]} in
  (∃ table',
     applyAction s (IDeleteColumn {| dc_Table := "users"; dc_Column := "email" |})
     = inr (<["users" := table']> s)
     ∧ getColumnFromTable table' "email" = None
     ∧ PrimaryKeys table' = ["id"])
  ∧ applyAction s (IDeleteColumn {| dc_Table := "users"; dc_Column := "age" |})
    = inl (Kind NotFoundError)
  ∧ applyAction s (IDeleteColumn {| dc_Table := "orders"; dc_Column := "email" |})
    = inl (Kind NotFoundError).
Proof.
  intros column table s. split; [|split].
  - destruct (DeleteColumn_fold s "users" "email") as [Hok _].
    destruct (Hok table) as (table' & Happly & Hgone & _ & _ & Hkeys & _).
    + reflexivity.
    + by exists column.
    + exists table'. by rewrite Hkeys.
  - destruct (DeleteColumn_fold s "users" "age") as [_ Hfail].
    apply Hfail. right. by exists table.
  - destruct (DeleteColumn_fold s "orders" "email") as [_ Hfail].
    apply Hfail. by left.
Defined.

(** ** The primary-key statements *)

Lemma append_assoc (a b c : string) : (a +:+ b) +:+ c = a +:+ b +:+ c.
Proof.
  induction a as [|x a IH]; [done|].
  change (String x ((a +:+ b) +:+ c) = String x (a +:+ b +:+ c)).
  by rewrite IH.
Qed.

Lemma append_empty_r (a : string) : a +:+ "" = a.
Proof.
  induction a as [|x a IH]; [done|].
  change (String x (a +:+ "") = String x a). by rewrite IH.
Qed.

Lemma join_cons sep s l :
  Str.join sep (s :: l) = s +:+ Str.concat ((λ x, sep +:+ x) <$> l).
Proof.
  revert s. induction l as [|x l IH]; intros s.
  - simpl. by rewrite append_empty_r.
  - change (Str.join sep (s :: x :: l)) with (s +:+ sep +:+ Str.join sep (x :: l)).
    rewrite IH, fmap_cons. cbn [Str.concat]. by rewrite append_assoc.
Qed.

Lemma quoted_text key : Str.Sprintf Sql.quoted [key] = Str.quote key.
Proof. reflexivity. Qed.

Lemma commaQuoted_text key :
  Str.Sprintf Sql.commaQuoted [key] = ", " +:+ Str.quote key.
Proof. reflexivity. Qed.

Lemma quote_not_empty key : Str.quote key ≠ "".
Proof. done. Qed.

Lemma append_not_empty (a b : string) : a ≠ "" → a +:+ b ≠ "".
Proof. by destruct a. Qed.

Lemma addKeys_later index keys acc :
  addKeys (S index) keys acc
  = acc +:+ Str.concat ((λ x, ", " +:+ x) <$> (Str.quote <$> keys)).
Proof.
  revert index acc. induction keys as [|k keys IH]; intros index acc.
  - simpl. by rewrite append_empty_r.
  - cbn [addKeys]. rewrite decide_False by done.
    rewrite IH, commaQuoted_text, !fmap_cons. cbn [Str.concat].
    by rewrite !append_assoc.
Qed.

(** The loop of [applyAddPrimaryKey] lists the keys of the snapshot in
    their order. *)
Lemma addKeys_columnList keys : addKeys 0 keys "" = columnList keys.
Proof.
  destruct keys as [|k keys]; [done|].
  unfold columnList. rewrite fmap_cons, join_cons.
  cbn [addKeys]. rewrite decide_True by done.
  by rewrite addKeys_later, quoted_text.
Qed.

Lemma remainingKeys_later keys column acc :
  acc ≠ "" →
  remainingKeys keys column acc
  = acc +:+ Str.concat ((λ x, ", " +:+ x) <$> (Str.quote <$> removeKey keys column)).
Proof.
  unfold removeKey. revert acc. induction keys as [|k keys IH]; intros acc Hacc.
  - simpl. by rewrite append_empty_r.
  - cbn [remainingKeys]. rewrite filter_cons.
    destruct (decide (k = column)) as [->|Hk].
    + rewrite decide_False; [|by intros H]. by apply IH.
    + rewrite (decide_True (P := k ≠ column)) by done.
      rewrite (decide_False (P := acc = "")) by done.
      rewrite IH by (by apply append_not_empty).
      rewrite commaQuoted_text, !fmap_cons. cbn [Str.concat].
      by rewrite !append_assoc.
Qed.

(** The loop of [applyDeletePrimaryKey] lists the keys of the snapshot
    other than the target, in their order. *)
Lemma remainingKeys_columnList keys column :
  remainingKeys keys column "" = columnList (removeKey keys column).
Proof.
  unfold removeKey. induction keys as [|k keys IH]; [done|].
  cbn [remainingKeys]. rewrite filter_cons.
  destruct (decide (k = column)) as [->|Hk].
  - rewrite decide_False; [|by intros H]. exact IH.
  - rewrite (decide_True (P := k ≠ column)) by done.
    rewrite (decide_True (P := "" = "")) by done.
    unfold columnList. rewrite fmap_cons, join_cons, quoted_text.
    by rewrite remainingKeys_later by apply quote_not_empty.
Qed.

Section PrimaryKeyFacts.

Context (srv : Server).
Context (GetSnapshotWithAction : string → nat → error + Snapshot).

(** What a successful [applyAddPrimaryKey] has sent: the drop only when the
    snapshot lists two keys or more, then one constraint over the keys
    of the snapshot. *)
Lemma applyAddPrimaryKey_sent tx tx' migrationId actionIndex params snapshot table :
  GetSnapshotWithAction migrationId actionIndex = inr snapshot →
  getTableFromSnapshot snapshot (apk_Table params) = Some table →
  applyAddPrimaryKey srv GetSnapshotWithAction tx migrationId actionIndex params
  = (tx', None) →
  sent tx'
  = sent tx
    ++ (if decide (1 < length (PrimaryKeys table))
        then [{| query := dropConstraintText (apk_Table params); args := [] |}]
        else [])
    ++ [{| query := addConstraintText (apk_Table params)
                      (columnList (PrimaryKeys table));
           args := [] |}].
Proof.
  intros Hsnap Htable. unfold applyAddPrimaryKey.
  rewrite Hsnap, Htable.
  destruct (getColumnFromTable table (apk_Column params)); [|done].
  rewrite dropConstraint_text, addConstraint_text, addKeys_columnList.
  destruct (decide (1 < length (PrimaryKeys table))).
  - pose proof (Exec_sent srv tx (dropConstraintText (apk_Table params)) []) as H1.
    destruct (Exec srv tx (dropConstraintText (apk_Table params)) [])
      as [tx1 [err|]]; [done|].
    pose proof (Exec_sent srv tx1
      (addConstraintText (apk_Table params) (columnList (PrimaryKeys table))) [])
      as H2.
    destruct (Exec srv tx1 _ []) as [tx2 [err|]]; [done|].
    intros [= <-]. simpl in *. rewrite H2, H1. by rewrite <-(assoc_L (++)).
  - pose proof (Exec_sent srv tx
      (addConstraintText (apk_Table params) (columnList (PrimaryKeys table))) [])
      as H2.
    destruct (Exec srv tx _ []) as [tx2 [err|]]; [done|].
    intros [= <-]. simpl in *. by rewrite H2.
Qed.

(** What a successful [applyDeletePrimaryKey] has sent: the drop, then
    always one constraint over the keys that remain, even when none does. *)
Lemma applyDeletePrimaryKey_sent tx tx' migrationId actionIndex params snapshot
    table :
  GetSnapshotWithAction migrationId actionIndex = inr snapshot →
  getTableFromSnapshot snapshot (dpk_Table params) = Some table →
  applyDeletePrimaryKey srv GetSnapshotWithAction tx migrationId actionIndex params
  = (tx', None) →
  sent tx'
  = sent tx
    ++ [{| query := dropConstraintText (dpk_Table params); args := [] |};
        {| query := addConstraintText (dpk_Table params)
                      (columnList (removeKey (PrimaryKeys table) (dpk_Column params)));
           args := [] |}].
Proof.
  intros Hsnap Htable. unfold applyDeletePrimaryKey.
  rewrite Hsnap, Htable.
  rewrite dropConstraint_text, addConstraint_text, remainingKeys_columnList.
  pose proof (Exec_sent srv tx (dropConstraintText (dpk_Table params)) []) as H1.
  destruct (Exec srv tx (dropConstraintText (dpk_Table params)) [])
    as [tx1 [err|]]; [done|].
  pose proof (Exec_sent srv tx1
    (addConstraintText (dpk_Table params)
       (columnList (removeKey (PrimaryKeys table) (dpk_Column params)))) [])
    as H2.
  destruct (Exec srv tx1 _ []) as [tx2 [err|]]; [done|].
  intros [= <-]. simpl in *. rewrite H2, H1. by rewrite <-(assoc_L (++)).
Qed.

End PrimaryKeyFacts.


(** The first key of a table: with the snapshot before the action the
    column list is empty, and so is the constraint that is sent. *)
Lemma applyAddPrimaryKey_first_key :
  let log := [Example.m1; Example.m2] in
  keysOf (snapshotAsOf Example.json log "20240102000000" 1) "users" = Some []
  ∧ sent (applyAddPrimaryKey Example.server (snapshotAsOf Example.json log)
            (begin []) "20240102000000" 1
            {| apk_Table := "users"; apk_Column := "email" |}).1
    = [{| query := addConstraintText "users" ""; args := [] |}].
Proof. by vm_compute. Qed.

(** C4, at the removal of the only key column: the log adds table
    [users], column [email] and the key [email], then deletes the key
    [email]. No key column remains, and [applyDeletePrimaryKey] still sends an
    [ADD CONSTRAINT], with an empty column list, after the
    [DROP CONSTRAINT]. *)
Theorem applyDeletePrimaryKey_last_key :
  let log := [Example.m1; Example.m2; Example.m4] in
  keysOf (snapshotAsOf Example.json log "20240104000000" 0) "users"
  = Some ["email"]
  ∧ removeKey ["email"] "email" = []
  ∧ applyDeletePrimaryKey Example.server (snapshotAsOf Example.json log) (begin [])
      "20240104000000" 0 {| dpk_Table := "users"; dpk_Column := "email" |}
    = ({| committed := [];
          calls := [({| query := dropConstraintText "users"; args := [] |}, true);
                    ({| query := addConstraintText "users" ""; args := [] |}, true)] |},
       None).
Proof. by vm_compute. Qed.

(** ** The sync run *)


(** ** Appending an action *)

Section AppendFacts.

Context (json : Json).


End AppendFacts.


Section ApplyFacts.

Context (json : Json) (srv : Server).
Context (GetSnapshotWithAction : string → nat → error + Snapshot).

Lemma extendedByDDL_refl tx : extendedByDDL tx tx.
Proof. split; [done|]. exists []. by rewrite app_nil_r. Qed.

Lemma extendedByDDL_trans tx1 tx2 tx3 :
  extendedByDDL tx1 tx2 → extendedByDDL tx2 tx3 → extendedByDDL tx1 tx3.
Proof.
  intros (Hc1 & n1 & Hn1 & HF1) (Hc2 & n2 & Hn2 & HF2).
  split; [congruence|]. exists (n1 ++ n2).
  rewrite Hn2, Hn1, (assoc_L (++)). split; [done|]. by apply Forall_app.
Qed.

Lemma Exec_extendedByDDL tx q a :
  q ≠ insertMigrationQuery → extendedByDDL tx (Exec srv tx q a).1.
Proof.
  intros Hq. destruct (Exec_calls srv tx q a) as (ok & Hcalls & Hcommitted & _).
  split; [done|]. eexists. split; [exact Hcalls|]. by repeat constructor.
Qed.

Lemma createTable_not_insert n :
  Str.Sprintf Sql.createTable [n] ≠ insertMigrationQuery.
Proof. done. Qed.

Lemma dropTable_not_insert n :
  Str.Sprintf Sql.dropTable [n] ≠ insertMigrationQuery.
Proof. done. Qed.

Lemma addColumn_not_insert a b c d e :
  Str.Sprintf Sql.addColumn [a; b; c; d; e] ≠ insertMigrationQuery.
Proof. done. Qed.

Lemma dropColumn_not_insert a b :
  Str.Sprintf Sql.dropColumn [a; b] ≠ insertMigrationQuery.
Proof. done. Qed.

Lemma dropConstraint_not_insert a :
  Str.Sprintf Sql.dropConstraint [a] ≠ insertMigrationQuery.
Proof. done. Qed.

Lemma addConstraint_not_insert a b :
  Str.Sprintf Sql.addConstraint [a; b] ≠ insertMigrationQuery.
Proof. done. Qed.

(** Closes a goal [extendedByDDL tx (f tx).1] where [f] makes at most one
    call of [Exec] with the SQL text [q]. *)
Local Ltac one_exec Hq :=
  match goal with
  | |- context [Exec srv ?tx ?q ?a] =>
      pose proof (Exec_extendedByDDL tx q a Hq);
      destruct (Exec srv tx q a) as [? [?|]]; simpl in *; done
  end.

Lemma applyAddTable_extends tx p : extendedByDDL tx (applyAddTable srv tx p).1.
Proof.
  unfold applyAddTable. destruct (Str.isBlank _); [apply extendedByDDL_refl|].
  one_exec (createTable_not_insert (at_Name p)).
Qed.

Lemma applyDeleteTable_extends tx p : extendedByDDL tx (applyDeleteTable srv tx p).1.
Proof.
  unfold applyDeleteTable. destruct (Str.isBlank _); [apply extendedByDDL_refl|].
  one_exec (dropTable_not_insert (dt_Name p)).
Qed.

Lemma applyAddColumn_extends tx p : extendedByDDL tx (applyAddColumn srv tx p).1.
Proof.
  unfold applyAddColumn.
  destruct (Str.isBlank (ac_Table p)); [apply extendedByDDL_refl|].
  destruct (Str.isBlank (ac_Column p)); [apply extendedByDDL_refl|].
  one_exec (addColumn_not_insert (ac_Table p) (ac_Column p) (ac_Type p)
              (notNullParam p) (defaultValueParam p)).
Qed.

Lemma applyDeleteColumn_extends tx p :
  extendedByDDL tx (applyDeleteColumn srv tx p).1.
Proof.
  unfold applyDeleteColumn.
  one_exec (dropColumn_not_insert (dc_Table p) (dc_Column p)).
Qed.

Lemma applyAddPrimaryKey_extends tx id index p :
  extendedByDDL tx (applyAddPrimaryKey srv GetSnapshotWithAction tx id index p).1.
Proof.
  unfold applyAddPrimaryKey.
  destruct (GetSnapshotWithAction id index) as [|snapshot];
    [apply extendedByDDL_refl|].
  destruct (getTableFromSnapshot snapshot (apk_Table p)) as [table|];
    [|apply extendedByDDL_refl].
  destruct (getColumnFromTable table (apk_Column p));
    [|apply extendedByDDL_refl].
  set (add := Str.Sprintf Sql.addConstraint _).
  assert (∀ tx1, extendedByDDL tx tx1 →
            extendedByDDL tx
              (let (tx2, o) := Exec srv tx1 add [] in
               match o with
               | Some err =>
                   (tx2, Some (Wrap "can't add primary key '%v' to table '%v': %v/n"
                                 [apk_Column p; apk_Table p] err))
               | None => (tx2, None)
               end).1) as Hadd.
  { intros tx1 H1.
    pose proof (Exec_extendedByDDL tx1 add []
                  (addConstraint_not_insert _ _)) as H2.
    destruct (Exec srv tx1 add []) as [tx2 [err|]]; simpl in *;
      by eapply extendedByDDL_trans. }
  destruct (decide (1 < length (PrimaryKeys table))).
  - pose proof (Exec_extendedByDDL tx (Str.Sprintf Sql.dropConstraint [apk_Table p])
                  [] (dropConstraint_not_insert _)) as H1.
    destruct (Exec srv tx (Str.Sprintf Sql.dropConstraint [apk_Table p]) [])
      as [tx1 [err|]]; simpl in *; [done|]. by apply Hadd.
  - apply Hadd, extendedByDDL_refl.
Qed.

Lemma applyDeletePrimaryKey_extends tx id index p :
  extendedByDDL tx
    (applyDeletePrimaryKey srv GetSnapshotWithAction tx id index p).1.
Proof.
  unfold applyDeletePrimaryKey.
  destruct (GetSnapshotWithAction id index) as [|snapshot];
    [apply extendedByDDL_refl|].
  destruct (getTableFromSnapshot snapshot (dpk_Table p)) as [table|];
    [|apply extendedByDDL_refl].
  pose proof (Exec_extendedByDDL tx (Str.Sprintf Sql.dropConstraint [dpk_Table p])
                [] (dropConstraint_not_insert _)) as H1.
  destruct (Exec srv tx (Str.Sprintf Sql.dropConstraint [dpk_Table p]) [])
    as [tx1 [err|]]; cbn [fst] in *; [done|].
  set (add := Str.Sprintf Sql.addConstraint _).
  assert (add ≠ insertMigrationQuery) as Hadd by apply addConstraint_not_insert.
  pose proof (Exec_extendedByDDL tx1 add [] Hadd) as H2.
  destruct (Exec srv tx1 add []) as [tx2 [err|]]; simpl in *;
    by eapply extendedByDDL_trans.
Qed.

Lemma applyDecoded_extends tx id index method params :
  extendedByDDL tx
    (applyDecoded srv GetSnapshotWithAction tx id index method params).1.
Proof.
  unfold applyDecoded.
  repeat case_decide; destruct params;
    auto using extendedByDDL_refl, applyAddTable_extends, applyDeleteTable_extends,
      applyAddColumn_extends, applyDeleteColumn_extends,
      applyAddPrimaryKey_extends, applyDeletePrimaryKey_extends.
Qed.

Lemma applyActionsFrom_extends tx id index actions :
  extendedByDDL tx
    (applyActionsFrom json srv GetSnapshotWithAction tx id index actions).1.
Proof.
  revert tx index. induction actions as [|a actions IH]; intros tx index.
  - apply extendedByDDL_refl.
  - simpl. destruct (decodeAction json (Method a) (Params a)) as [|[method params]];
      [apply extendedByDDL_refl|].
    pose proof (applyDecoded_extends tx id index method params) as H1.
    destruct (applyDecoded srv GetSnapshotWithAction tx id index method params)
      as [tx1 [err|]]; simpl in *; [done|].
    eapply extendedByDDL_trans; [exact H1|apply IH].
Qed.

Lemma applyMigrationActions_extends tx m :
  extendedByDDL tx (applyMigrationActions json srv GetSnapshotWithAction tx m).1.
Proof. apply applyActionsFrom_extends. Qed.

End ApplyFacts.

(** ** The loop of [Sync] *)

Lemma migrationRows_app h1 h2 :
  migrationRows (h1 ++ h2) = migrationRows h1 ++ migrationRows h2.
Proof. unfold migrationRows. apply omap_app. Qed.

Lemma rowsOf_app cs1 cs2 : rowsOf (cs1 ++ cs2) = rowsOf cs1 ++ rowsOf cs2.
Proof. unfold rowsOf. by rewrite filter_app, fmap_app, migrationRows_app. Qed.

Lemma rowsOf_DDL cs :
  Forall (λ c, query c.1 ≠ insertMigrationQuery) cs → rowsOf cs = [].
Proof.
  unfold rowsOf, migrationRows. induction 1 as [|[s ok] cs Hs _ IH]; [done|].
  rewrite filter_cons. simpl in *. destruct (decide (ok = true)); [|done].
  simpl. by rewrite decide_False.
Qed.

Lemma visible_rows tx :
  migrationRows (visible tx) = migrationRows (committed tx) ++ rowsOf (calls tx).
Proof. unfold visible, accepted. by rewrite migrationRows_app. Qed.

Section LoopFacts.

Context (json : Json) (srv : Server).

(** When nothing is pending the loop makes no call. *)
Lemma Sync_loop_nothing log migrations marker passed tx :
  pending migrations marker passed = [] →
  Sync_loop json srv log migrations marker passed tx = (tx, None).
Proof.
  revert passed. induction migrations as [|m migrations IH]; intros passed; [done|].
  simpl. destruct (decide (Id m = marker)); [apply IH|].
  destruct passed; [done|]. apply IH.
Qed.

(** The calls of the loop: the bookkeeping rows it adds, when no call is
    refused, are those of the pending migrations, in order. *)
Lemma Sync_loop_calls log migrations marker passed tx :
  let r := Sync_loop json srv log migrations marker passed tx in
  committed r.1 = committed tx
  ∧ ∃ new, calls r.1 = calls tx ++ new
           ∧ (r.2 = None → Forall (λ c, c.2 = true) new →
              rowsOf new = Id <$> pending migrations marker passed).
Proof.
  revert passed tx.
  induction migrations as [|m migrations IH]; intros passed tx.
  { simpl. split; [done|]. exists []. by rewrite app_nil_r. }
  simpl. destruct (decide (Id m = marker)); [apply IH|].
  destruct passed; simpl; [|apply IH].
  pose proof (applyMigrationActions_extends json srv (snapshotAsOf json log) tx m)
    as (Hc1 & n1 & Hn1 & HF1).
  destruct (applyMigrationActions json srv (snapshotAsOf json log) tx m)
    as [tx1 [err|]]; simpl in *.
  { split; [done|]. by exists n1. }
  destruct (Exec_calls srv tx1 insertMigrationQuery
              [Id m; marshalMigration json m]) as (ok & Hn2 & Hc2 & _).
  unfold addMigrationToMigrationsTable.
  destruct (IH true (Exec srv tx1 insertMigrationQuery
                       [Id m; marshalMigration json m]).1)
    as (Hc3 & n3 & Hn3 & Hrows).
  split; [congruence|].
  exists (n1 ++ [({| query := insertMigrationQuery;
                     args := [Id m; marshalMigration json m] |}, ok)] ++ n3).
  split.
  { rewrite Hn3, Hn2, Hn1. by rewrite <-!(assoc_L (++)). }
  intros Hnone Hall.
  apply Forall_app in Hall as [_ Hall].
  change (Forall (λ c : Stmt * bool, c.2 = true)
            (({| query := insertMigrationQuery;
                 args := [Id m; marshalMigration json m] |}, ok) :: n3)) in Hall.
  apply Forall_cons in Hall as [Hok Hall]. simpl in Hok. subst ok.
  rewrite !rowsOf_app, (rowsOf_DDL n1 HF1), Hrows by done.
  done.
Qed.

(** C1, amended: when the marker read from the store is not empty and is
    the id of no migration of the log, [Sync] applies no migration: the only
    statement it can send is the creation of the bookkeeping table, no
    migration is recorded, and the rows of the bookkeeping table stay as they
    were. *)
Theorem Sync_unknown_marker d db log marker :
  GetList json d = inr log →
  maxId (migrationRows db) = Some marker →
  marker ≠ "" →
  marker ∉ Id <$> log →
  Forall (λ s, s = setup) (statements (Sync json srv d db))
  ∧ (∀ m, ¬ applies json (Sync json srv d db) m)
  ∧ migrationRows (durable db (Sync json srv d db)) = migrationRows db.
Proof.
  intros Hlist Hmax Hmarker Hnotin.
  assert (∀ migrations : list Migration, marker ∉ Id <$> migrations →
            pending migrations marker false = []) as Hpending.
  { intros migrations. induction migrations as [|m migrations IH]; [done|].
    rewrite fmap_cons, not_elem_of_cons. intros [Hne Hrest].
    simpl. rewrite decide_False by done. by apply IH. }
  assert (Forall (λ s, s = setup) (statements (Sync json srv d db))
          ∧ migrationRows (durable db (Sync json srv d db)) = migrationRows db)
    as [Hsent Hrows].
  { unfold Sync. rewrite Hlist.
    destruct (open_err srv); [done|].
    destruct (ping_err srv); [done|].
    destruct (begin_err srv); [done|].
    unfold addMigrationsTableIfNotExist, getCurrentSyncedMigrationId, Exec.
    destruct (exec_err srv (visible (begin db)) _).
    { simpl. split; [by repeat constructor|done]. }
    destruct (scan_err srv _).
    { simpl. split; [by repeat constructor|done]. }
    destruct (GetCurrentSnapshot json log).
    { simpl. split; [by repeat constructor|done]. }
    rewrite visible_rows. cbn [committed calls begin app].
    change (rowsOf [({| query := Sql.createMigrationsTable; args := [] |}, true)])
      with (@nil string).
    rewrite app_nil_r, Hmax. cbn [default].
    rewrite bool_decide_eq_false_2 by done.
    rewrite Sync_loop_nothing by (by apply Hpending).
    destruct (commit_err srv _); simpl.
    - split; [by repeat constructor|done].
    - split; [by repeat constructor|].
      unfold visible, accepted. simpl. by rewrite migrationRows_app, app_nil_r. }
  split; [done|]. split; [|done].
  intros m Happlies. unfold applies in Happlies.
  rewrite Forall_forall in Hsent. by apply Hsent in Happlies.
Qed.

End LoopFacts.

(** ** The marker and the ids of the log *)

Lemma le_empty s : String.le "" s.
Proof. by destruct s. Qed.

Lemma maxId_None ids : maxId ids = None → ids = [].
Proof.
  destruct ids as [|id ids]; [done|]. simpl.
  destruct (maxId ids) as [m|]; [destruct (String.leb id m)|]; done.
Qed.

Lemma maxId_elem ids m : maxId ids = Some m → m ∈ ids.
Proof.
  revert m. induction ids as [|id ids IH]; intros m; [done|]. simpl.
  destruct (maxId ids) as [m'|].
  - destruct (String.leb id m'); intros [= <-].
    + right. by apply IH.
    + left.
  - intros [= <-]. left.
Qed.

Lemma maxId_upper ids m x : maxId ids = Some m → x ∈ ids → String.le x m.
Proof.
  revert m. induction ids as [|id ids IH]; intros m; [done|]. simpl.
  destruct (maxId ids) as [m'|] eqn:Hm'.
  - destruct (String.leb id m') eqn:Hle; intros [= <-] [->|Hx]%elem_of_cons.
    + unfold String.le. by rewrite Hle.
    + by apply IH.
    + done.
    + trans m'; [by apply IH|].
      destruct (total String.le id m') as [H|H]; [|done].
      unfold String.le in H. by rewrite Hle in H.
  - intros [= <-] [->|Hx]%elem_of_cons; [done|].
    apply maxId_None in Hm' as ->. by apply elem_of_nil in Hx.
Qed.


Lemma ascending_cons m ms :
  ascending (m :: ms)
  ↔ (∀ x, x ∈ ms → strict String.le (Id m) (Id x)) ∧ ascending ms.
Proof.
  unfold ascending.
  by rewrite fmap_cons, StronglySorted_cons, Forall_fmap, Forall_forall.
Qed.

Lemma pending_all ms marker :
  (∀ x, x ∈ ms → Id x ≠ marker) → pending ms marker true = ms.
Proof.
  induction ms as [|m ms IH]; intros Hne; [done|]. simpl.
  rewrite decide_False by (apply Hne; left). f_equal.
  apply IH. intros x Hx. apply Hne. by right.
Qed.

(** On an ascending log the loop applies a final stretch of the log, all
    of it above the marker; what it skips is at or below the marker when the
    marker is in the log or empty. *)
Lemma pending_suffix ms marker passed :
  ascending ms →
  (passed = true → ∀ x, x ∈ ms → String.le marker (Id x)) →
  ∃ pre, ms = pre ++ pending ms marker passed
         ∧ (∀ x, x ∈ pending ms marker passed → strict String.le marker (Id x))
         ∧ (passed = true ∨ marker ∈ Id <$> ms →
            ∀ x, x ∈ pre → String.le (Id x) marker).
Proof.
  induction ms as [|m ms IH]; intros Hasc Hle.
  { exists []. split; [done|].
    split; [intros x Hx|intros _ x Hx]; by apply elem_of_nil in Hx. }
  apply ascending_cons in Hasc as [Hm Hasc]. simpl.
  destruct (decide (Id m = marker)) as [<-|Hne].
  - rewrite pending_all.
    + exists [m]. split; [done|]. split; [done|].
      intros _ x Hx%list_elem_of_singleton. by subst x.
    + intros x Hx. by apply (strict_ne_sym (R:=String.le)), Hm.
  - destruct passed.
    + assert (strict String.le marker (Id m)) as Hlt.
      { apply (strict_spec_alt (R:=String.le)). split; [apply Hle; [done|left]|done]. }
      assert (∀ x, x ∈ ms → strict String.le marker (Id x)) as Hrest.
      { intros x Hx. eapply (strict_trans_l (R:=String.le)); [exact Hlt|].
        by apply (strict_include (R:=String.le)), Hm. }
      rewrite pending_all.
      * exists []. split; [done|]. split.
        -- intros x [->|Hx]%elem_of_cons; [done|by apply Hrest].
        -- intros _ x Hx. by apply elem_of_nil in Hx.
      * intros x Hx. by apply (strict_ne_sym (R:=String.le)), Hrest.
    + destruct IH as (pre & Hsplit & Hgt & Hpre); [done..|].
      exists (m :: pre). split; [simpl; by f_equal|]. split; [done|].
      intros [?|Hin] x Hx; [done|].
      change (marker ∈ Id m :: (Id <$> ms)) in Hin.
      apply elem_of_cons in Hin as [?|Hin]; [done|].
      apply elem_of_cons in Hx as [->|Hx]; [|by apply Hpre; [right|]].
      apply list_elem_of_fmap in Hin as (y & -> & Hy).
      by apply (strict_include (R:=String.le)), Hm.
Qed.



(** When the marker of the first run was empty or the id of a migration of
    the log, the marker the second run reads is at or above every id of the
    log. *)
Lemma marker_covers_log log rows applied m :
  ascending log →
  applied = pending log (default "" (maxId rows))
              (bool_decide (default "" (maxId rows) = "")) →
  default "" (maxId rows) = "" ∨ default "" (maxId rows) ∈ Id <$> log →
  m ∈ log →
  String.le (Id m) (default "" (maxId (rows ++ (Id <$> applied)))).
Proof.
  intros Hasc Happlied Hmarker Hm. set (marker := default "" (maxId rows)) in *.
  destruct (pending_suffix log marker (bool_decide (marker = "")) Hasc)
    as (pre & Hsplit & Hgt & Hpre).
  { intros Hempty%bool_decide_eq_true x _. rewrite Hempty. apply le_empty. }
  rewrite <-Happlied in Hsplit, Hgt.
  assert (String.le marker (default "" (maxId (rows ++ (Id <$> applied)))))
    as Hgrows.
  { unfold marker. destruct (maxId rows) as [r|] eqn:Hrows; [|apply le_empty].
    destruct (maxId (rows ++ (Id <$> applied))) as [r'|] eqn:Hall.
    - eapply maxId_upper; [exact Hall|].
      apply elem_of_app. left. by apply maxId_elem.
    - apply maxId_None, app_eq_nil in Hall as [-> _]. done. }
  rewrite Hsplit in Hm. apply elem_of_app in Hm as [Hm|Hm].
  - trans marker; [|done]. apply Hpre; [|done].
    destruct Hmarker as [Hempty|Hin]; [left|by right].
    by apply bool_decide_eq_true.
  - destruct (maxId (rows ++ (Id <$> applied))) as [r'|] eqn:Hall.
    + eapply maxId_upper; [exact Hall|].
      apply elem_of_app. right. by apply list_elem_of_fmap_2.
    + apply maxId_None, app_eq_nil in Hall as [_ Hnil].
      apply fmap_nil_inv in Hnil. rewrite Hnil in Hm. by apply elem_of_nil in Hm.
Qed.

(** ** Running [Sync] twice *)

Section Idempotence.

Context (json : Json).

Lemma rowsOf_setup ok : rowsOf [(setup, ok)] = [].
Proof. by destruct ok. Qed.


End Idempotence.



Lemma Sync_unknown_marker_witness :
  let d := Example.disk [Example.doc1; Example.doc2] in
  Forall (λ s, s = setup)
    (statements (Sync Example.json Example.server d Example.stale))
  ∧ (∀ m, ¬ applies Example.json
              (Sync Example.json Example.server d Example.stale) m)
  ∧ migrationRows (durable Example.stale
                     (Sync Example.json Example.server d Example.stale))
    = ["20230101000000"].
Proof.
  intros d.
  apply (Sync_unknown_marker Example.json Example.server d Example.stale
           [Example.m1; Example.m2] "20230101000000").
  - by vm_compute.
  - by vm_compute.
  - done.
  - apply (bool_decide_unpack _). by vm_compute.
Defined.

(** C1 as the specification has it fails: with a marker that is not
    empty and is the id of no migration of the log, [Sync] applies none of
    the migrations, where the specification has it apply them all. *)
Lemma Sync_unknown_marker_reapplies_nothing :
  let d := Example.disk [Example.doc1; Example.doc2] in
  GetList Example.json d = inr [Example.m1; Example.m2]
  ∧ getCurrentSyncedMigrationId Example.server (begin Example.stale)
    = ("20230101000000", None)
  ∧ ("20230101000000" ∉ Id <$> [Example.m1; Example.m2])
  ∧ statements (Sync Example.json Example.server d Example.stale) = [setup]
  ∧ ¬ reappliesAll Example.json Example.server d Example.stale.
Proof.
  intros d.
  assert (statements (Sync Example.json Example.server d Example.stale) = [setup])
    as Hsent by (by vm_compute).
  split; [by vm_compute|]. split; [by vm_compute|].
  split; [apply (bool_decide_unpack _); by vm_compute|].
  split; [exact Hsent|].
  intros Hall.
  specialize (Hall [Example.m1; Example.m2] Example.m1).
  unfold applies in Hall. rewrite Hsent in Hall.
  assert (insertOf Example.json Example.m1 ∈ [setup]) as Hin.
  { apply Hall; [by vm_compute|left]. }
  apply list_elem_of_singleton in Hin. discriminate Hin.
Qed.

(** ** Branches that are never taken *)

Section DeadBranches.

Context (json : Json) (srv : Server).

(** What [decodeAction] returns has the type its method announces, so no
    type assertion of [applyMigrationActions] fails. *)
Lemma decodeAction_typed method raw m v :
  decodeAction json method raw = inr (m, v) →
  (m = "addTable" ∧ ∃ p, v = IAddTable p)
  ∨ (m = "deleteTable" ∧ ∃ p, v = IDeleteTable p)
  ∨ (m = "addColumn" ∧ ∃ p, v = IAddColumn p)
  ∨ (m = "deleteColumn" ∧ ∃ p, v = IDeleteColumn p)
  ∨ (m = "addPrimaryKey" ∧ ∃ p, v = IAddPrimaryKey p)
  ∨ (m = "deletePrimaryKey" ∧ ∃ p, v = IDeletePrimaryKey p)
  ∨ (m = "" ∧ v = INil).
Proof.
  unfold decodeAction. intros H.
  repeat case_decide; repeat case_match; simplify_eq; naive_solver.
Qed.

(** The loop of [Sync] fails only with the error of a migration's actions:
    whatever the bookkeeping insert returns, the error "can't add migration
    to migrations table" is never produced. *)
Lemma Sync_loop_error log migrations marker passed tx err :
  (Sync_loop json srv log migrations marker passed tx).2 = Some err →
  ∃ id cause, err = Wrap "can't apply migration %v: %v/n" [id] cause.
Proof.
  revert passed tx. induction migrations as [|m migrations IH]; intros passed tx.
  { done. }
  simpl. destruct (decide (Id m = marker)); [apply IH|].
  destruct passed; simpl; [|apply IH].
  destruct (applyMigrationActions json srv (snapshotAsOf json log) tx m)
    as [tx1 [cause|]].
  - intros [= <-]. eauto.
  - apply IH.
Qed.

End DeadBranches.

(** * More of the package *)

(** ** File names *)

Lemma string_length_append (a b : string) :
  String.length (a +:+ b) = String.length a + String.length b.
Proof.
  induction a as [|c a IH]; [done|].
  change (S (String.length (a +:+ b)) = S (String.length a + String.length b)).
  by rewrite IH.
Qed.

Lemma substring_full s : String.substring 0 (String.length s) s = s.
Proof. induction s as [|c s IH]; [done|]. simpl. by rewrite IH. Qed.

Lemma substring_split s k :
  k ≤ String.length s →
  String.substring 0 k s +:+ String.substring k (String.length s - k) s = s.
Proof.
  revert k. induction s as [|c s IH]; intros k Hk.
  - simpl in Hk. by replace k with 0 by lia.
  - destruct k as [|k].
    + change (String.substring 0 (String.length (String c s)) (String c s)
              = String c s).
      apply substring_full.
    + simpl in Hk.
      change (String c (String.substring 0 k s
                        +:+ String.substring k (String.length s - k) s)
              = String c s).
      rewrite IH; [done|lia].
Qed.

Lemma substring_append_l (a b : string) :
  String.substring 0 (String.length a) (a +:+ b) = a.
Proof.
  induction a as [|c a IH]; [by destruct b|].
  change (String c (String.substring 0 (String.length a) (a +:+ b)) = String c a).
  by rewrite IH.
Qed.

Lemma substring_append_r (a b : string) :
  String.substring (String.length a) (String.length b) (a +:+ b) = b.
Proof.
  induction a as [|c a IH]; [apply substring_full|].
  change (String.substring (String.length a) (String.length b) (a +:+ b) = b).
  exact IH.
Qed.

Lemma hasSuffix_append (a suffix : string) : hasSuffix (a +:+ suffix) suffix = true.
Proof.
  unfold hasSuffix. rewrite string_length_append.
  replace (String.length a + String.length suffix - String.length suffix)
    with (String.length a) by lia.
  rewrite substring_append_r.
  rewrite bool_decide_eq_true_2 by lia. by rewrite bool_decide_eq_true_2.
Qed.

Lemma trimSuffix_append (a suffix : string) :
  trimSuffix (a +:+ suffix) suffix = a.
Proof.
  unfold trimSuffix. rewrite hasSuffix_append, string_length_append.
  replace (String.length a + String.length suffix - String.length suffix)
    with (String.length a) by lia.
  apply substring_append_l.
Qed.

Lemma trimSuffix_restore (name suffix : string) :
  hasSuffix name suffix = true → trimSuffix name suffix +:+ suffix = name.
Proof.
  intros Hsuffix. unfold trimSuffix. rewrite Hsuffix.
  unfold hasSuffix in Hsuffix.
  apply andb_true_iff in Hsuffix as [Hle%bool_decide_eq_true Heq%bool_decide_eq_true].
  etrans;
    [|apply (substring_split name (String.length name - String.length suffix));
      lia].
  f_equal.
  replace (String.length name - (String.length name - String.length suffix))
    with (String.length suffix) by lia.
  done.
Qed.

(** ** Listing the log *)

Lemma Forall2_impl_elem {A B} (P Q : A → B → Prop) l k :
  Forall2 P l k → (∀ x y, x ∈ l → P x y → Q x y) → Forall2 Q l k.
Proof.
  induction 1 as [|x y l k Hxy _ IH]; intros Himpl; constructor.
  - apply Himpl; [left|done].
  - apply IH. intros x' y' Hx'. apply Himpl. by right.
Qed.

Section ListFacts.

Context (json : Json).

Lemma globJson_elem d name :
  name ∈ globJson d ↔ is_Some (files d !! name) ∧ hasSuffix name ".json" = true.
Proof.
  unfold globJson. rewrite list_elem_of_filter, elem_of_elements, elem_of_dom.
  tauto.
Qed.

Lemma listedNames_elem d name :
  name ∈ listedNames d
  ↔ is_Some (files d !! name) ∧ hasSuffix name ".json" = true.
Proof.
  unfold listedNames, sortStrings.
  by rewrite merge_sort_Permutation, globJson_elem.
Qed.

Lemma listedNames_Sorted d : Sorted String.le (listedNames d).
Proof. apply (Sorted_merge_sort String.le). Qed.

Lemma listedNames_NoDup d : NoDup (listedNames d).
Proof.
  unfold listedNames, sortStrings. rewrite merge_sort_Permutation.
  apply NoDup_filter, NoDup_elements.
Qed.

(** [Get] on the id cut out of a listed file name reads that file. *)
Lemma Get_listed d name text :
  getwd_err d = None →
  files d !! name = Some text →
  hasSuffix name ".json" = true →
  Get json d (trimSuffix name ".json")
  = match unmarshalMigration json text with
    | inl err => inl (Wrap "can't parse migration: %v/n" [] err)
    | inr m => inr m
    end.
Proof.
  intros Hwd Hfile Hsuffix. unfold Get, GetText, getMigrationPath.
  rewrite Hwd, (trimSuffix_restore _ _ Hsuffix), Hfile. done.
Qed.

Lemma GetList_loop_inr d names acc log :
  GetList_loop json d names acc = inr log
  ↔ ∃ ms, log = acc ++ ms
          ∧ Forall2 (λ name m, Get json d (trimSuffix name ".json") = inr m)
              names ms.
Proof.
  revert acc. induction names as [|name names IH]; intros acc; simpl.
  - split.
    + intros [= <-]. exists []. by rewrite app_nil_r.
    + intros (ms & -> & Hms). apply Forall2_nil_inv_l in Hms as ->.
      by rewrite app_nil_r.
  - destruct (Get json d (trimSuffix name ".json")) as [err|m] eqn:Hget.
    + split; [done|]. intros (ms & _ & Hms).
      apply Forall2_cons_inv_l in Hms as (m & ms' & Hm & _ & _). congruence.
    + rewrite IH. split.
      * intros (ms & -> & Hms). exists (m :: ms).
        rewrite <-(assoc_L (++)). split; [done|]. by constructor.
      * intros (ms & -> & Hms).
        apply Forall2_cons_inv_l in Hms as (m' & ms' & Hm & Hms' & ->).
        assert (m' = m) as -> by congruence.
        exists ms'. by rewrite <-(assoc_L (++)).
Qed.

Lemma GetList_loop_inl d names acc err :
  GetList_loop json d names acc = inl err →
  ∃ name cause, name ∈ names
                ∧ Get json d (trimSuffix name ".json") = inl cause
                ∧ err = Wrap "can't read migration %v/n" [] cause.
Proof.
  revert acc. induction names as [|name names IH]; intros acc; simpl; [done|].
  destruct (Get json d (trimSuffix name ".json")) as [cause|m] eqn:Hget.
  - intros [= <-]. exists name, cause. split; [left|done].
  - intros (n & cause & Hn & Hcause)%IH. exists n, cause. split; [by right|done].
Qed.

Lemma GetList_parsed d log :
  GetList json d = inr log →
  Forall2 (λ name m, ∃ text, files d !! name = Some text
                             ∧ unmarshalMigration json text = inr m)
    (listedNames d) log.
Proof.
  intros Hlist.
  unfold GetList in Hlist. destruct (getwd_err d) eqn:Hwd; [done|].
  apply GetList_loop_inr in Hlist as (ms & -> & Hms). simpl.
  fold (listedNames d) in Hms.
  eapply Forall2_impl_elem; [exact Hms|].
  intros name m Hname Hget. cbv beta in Hget.
  apply listedNames_elem in Hname as [[text Hfile] Hsuffix].
  rewrite (Get_listed d name text) in Hget by done.
  exists text. split; [done|].
  by destruct (unmarshalMigration json text).
Qed.

(** X1: when [GetList] succeeds, the log it returns is the parse of the
    [.json] files of the directory, one migration per file, in ascending
    order of file name: the names read are sorted, without repetition, and
    are exactly the names of the files that end in [.json]. *)
Theorem GetList_reads_json_files d log :
  GetList json d = inr log →
  Sorted String.le (listedNames d)
  ∧ NoDup (listedNames d)
  ∧ (∀ name, name ∈ listedNames d
             ↔ is_Some (files d !! name) ∧ hasSuffix name ".json" = true)
  ∧ Forall2 (λ name m, ∃ text, files d !! name = Some text
                               ∧ unmarshalMigration json text = inr m)
      (listedNames d) log.
Proof.
  intros Hlist.
  split; [apply listedNames_Sorted|]. split; [apply listedNames_NoDup|].
  split; [apply listedNames_elem|].
  by apply GetList_parsed.
Qed.

End ListFacts.


Section ListMore.

Context (json : Json).

Lemma GetList_loop_ext d d' names acc :
  (∀ name, name ∈ names →
     Get json d' (trimSuffix name ".json") = Get json d (trimSuffix name ".json")) →
  GetList_loop json d' names acc = GetList_loop json d names acc.
Proof.
  revert acc. induction names as [|name names IH]; intros acc Hsame; [done|].
  simpl. rewrite Hsame by left.
  destruct (Get json d (trimSuffix name ".json")); [done|].
  apply IH. intros n Hn. apply Hsame. by right.
Qed.

Lemma GetList_loop_app d l1 l2 acc :
  GetList_loop json d (l1 ++ l2) acc
  = match GetList_loop json d l1 acc with
    | inl err => inl err
    | inr result => GetList_loop json d l2 result
    end.
Proof.
  revert acc. induction l1 as [|name l1 IH]; intros acc; [done|].
  simpl. by destruct (Get json d (trimSuffix name ".json")).
Qed.

Lemma Get_withFile_ne d name text id :
  id +:+ ".json" ≠ name → Get json (withFile d name text) id = Get json d id.
Proof.
  intros Hne. unfold Get, GetText, getMigrationPath, withFile. simpl.
  destruct (getwd_err d); [done|]. by rewrite lookup_insert_ne.
Qed.

Lemma Get_withFile_eq d id text :
  getwd_err d = None →
  Get json (withFile d (id +:+ ".json") text) id
  = match unmarshalMigration json text with
    | inl err => inl (Wrap "can't parse migration: %v/n" [] err)
    | inr m => inr m
    end.
Proof.
  intros Hwd. unfold Get, GetText, getMigrationPath, withFile. simpl.
  by rewrite Hwd, lookup_insert_eq.
Qed.

Lemma listedNames_unique d names :
  Sorted String.le names → NoDup names →
  (∀ name, name ∈ names
           ↔ is_Some (files d !! name) ∧ hasSuffix name ".json" = true) →
  listedNames d = names.
Proof.
  intros Hsorted Hnodup Hnames.
  apply (Sorted_unique String.le); [apply listedNames_Sorted|done|].
  apply NoDup_Permutation; [apply listedNames_NoDup|done|].
  intros name. by rewrite listedNames_elem, Hnames.
Qed.

(** X2: with a working directory, [GetList] succeeds exactly when every
    file of the directory whose name ends in [.json] parses as a migration;
    when it fails, the error is "can't read migration" around "can't parse
    migration" around the error of the JSON library: one file that does not
    parse hides the whole log. *)
Theorem GetList_succeeds_iff d :
  getwd_err d = None →
  ((∃ log, GetList json d = inr log)
   ↔ ∀ name text, files d !! name = Some text →
                  hasSuffix name ".json" = true →
                  ∃ m, unmarshalMigration json text = inr m)
  ∧ (∀ err, GetList json d = inl err →
       ∃ cause, err = Wrap "can't read migration %v/n" []
                        (Wrap "can't parse migration: %v/n" [] cause)).
Proof.
  intros Hwd.
  assert (∀ err, GetList json d = inl err →
            ∃ name text cause,
              files d !! name = Some text ∧ hasSuffix name ".json" = true
              ∧ unmarshalMigration json text = inl cause
              ∧ err = Wrap "can't read migration %v/n" []
                        (Wrap "can't parse migration: %v/n" [] cause))
    as Hfail.
  { intros err Hlist. unfold GetList in Hlist. rewrite Hwd in Hlist.
    apply GetList_loop_inl in Hlist as (name & cause & Hname & Hget & ->).
    fold (listedNames d) in Hname.
    apply listedNames_elem in Hname as [[text Hfile] Hsuffix].
    rewrite (Get_listed json d name text) in Hget by done.
    destruct (unmarshalMigration json text) as [e|] eqn:Hparse; [|done].
    injection Hget as <-. by exists name, text, e. }
  split; [split|].
  - intros [log Hlist] name text Hfile Hsuffix.
    apply (GetList_parsed json) in Hlist as Hall.
    assert (name ∈ listedNames d) as Hname.
    { apply listedNames_elem. split; [by exists text|done]. }
    apply list_elem_of_lookup in Hname as [i Hi].
    destruct (Forall2_lookup_l _ _ _ _ _ Hall Hi) as (m & _ & text' & Hfile' & Hm).
    exists m. congruence.
  - intros Hparse. destruct (GetList json d) as [err|log] eqn:Hlist; [|by exists log].
    destruct (Hfail err eq_refl) as (name & text & cause & Hfile & Hsuffix & Hbad & _).
    destruct (Hparse name text Hfile Hsuffix) as [m Hm]. congruence.
  - intros err Hlist.
    destruct (Hfail err Hlist) as (_ & _ & cause & _ & _ & _ & ->). by exists cause.
Qed.

(** X3: a file whose name does not end in [.json] is invisible to
    [GetList]: adding it to the directory, or changing it, changes nothing
    in what [GetList] returns. *)
Theorem GetList_ignores_other_files d name text :
  hasSuffix name ".json" = false →
  GetList json (withFile d name text) = GetList json d.
Proof.
  intros Hsuffix. unfold GetList. cbn [getwd_err withFile].
  destruct (getwd_err d); [done|].
  fold (listedNames (withFile d name text)). fold (listedNames d).
  assert (listedNames (withFile d name text) = listedNames d) as ->.
  { apply listedNames_unique;
      [apply listedNames_Sorted|apply listedNames_NoDup|].
    intros n. rewrite listedNames_elem. cbn [files withFile].
    destruct (decide (n = name)) as [->|Hne].
    - rewrite Hsuffix. split; by intros [_ ?].
    - by rewrite lookup_insert_ne. }
  apply GetList_loop_ext. intros n Hn.
  apply listedNames_elem in Hn as [_ Hn].
  apply Get_withFile_ne. rewrite (trimSuffix_restore _ _ Hn).
  intros ->. congruence.
Qed.

End ListMore.

(** ** Creating a migration *)

Section CreateFacts.

Context (json : Json).

Lemma AddMigration_ok d d' now stat mkdir_err description :
  AddMigration json d now stat mkdir_err description = (d', None) →
  getwd_err d = None
  ∧ d' = withFile d (now +:+ ".json")
           (marshalIndentMigration json (newMigration now description)).
Proof.
  unfold AddMigration, WriteFile, withFile, newMigration.
  destruct (getwd_err d); [done|].
  destruct stat; try done; try destruct mkdir_err; try done;
    destruct (write_err d (now +:+ ".json")); try done;
    by intros [= <-].
Qed.

Lemma withFile_twice d name text1 text2 :
  withFile (withFile d name text1) name text2 = withFile d name text2.
Proof. unfold withFile. simpl. by rewrite insert_insert_eq. Qed.

Lemma listedNames_new_last d new text :
  hasSuffix new ".json" = true →
  (∀ name, name ∈ listedNames d → strict String.le name new) →
  listedNames (withFile d new text) = listedNames d ++ [new].
Proof.
  intros Hsuffix Hbelow. apply listedNames_unique.
  - apply Sorted.StronglySorted_Sorted, StronglySorted_app_2.
    + intros x1 x2 Hx1 ->%list_elem_of_singleton.
      by apply (strict_include (R:=String.le)), Hbelow.
    + apply Sorted_StronglySorted; [apply _|apply listedNames_Sorted].
    + by repeat constructor.
  - apply NoDup_app. split; [apply listedNames_NoDup|]. split.
    + intros x Hx Hnew%list_elem_of_singleton. subst x.
      by apply (strict_ne (R:=String.le) new new (Hbelow _ Hx)).
    + apply NoDup_singleton.
  - intros name. rewrite elem_of_app, list_elem_of_singleton, listedNames_elem.
    cbn [files withFile]. destruct (decide (name = new)) as [->|Hne].
    + rewrite lookup_insert_eq. split; [by eauto|by right].
    + rewrite lookup_insert_ne by done. split.
      * by intros [?|?].
      * by left.
Qed.


(** X5: two migrations created within the same second get the same id and
    the same file: the second creation replaces the record of the first, and
    the directory is as if the first had never been made. *)
Theorem AddMigration_same_second d d1 d2 now stat1 stat2 mkdir1 mkdir2
    description1 description2 :
  AddMigration json d now stat1 mkdir1 description1 = (d1, None) →
  AddMigration json d1 now stat2 mkdir2 description2 = (d2, None) →
  d2 = withFile d (now +:+ ".json")
         (marshalIndentMigration json (newMigration now description2))
  ∧ listedNames d2 = listedNames d1.
Proof.
  intros [Hwd ->]%AddMigration_ok [_ ->]%AddMigration_ok.
  rewrite withFile_twice. split; [done|].
  rewrite <-(withFile_twice d (now +:+ ".json")
               (marshalIndentMigration json (newMigration now description1))
               (marshalIndentMigration json (newMigration now description2))).
  apply listedNames_unique; [apply listedNames_Sorted|apply listedNames_NoDup|].
  intros name. rewrite listedNames_elem. cbn [files withFile].
  destruct (decide (name = now +:+ ".json")) as [->|Hne].
  - rewrite !lookup_insert_eq. split; intros [_ ?]; (split; [by eexists|done]).
  - rewrite !(lookup_insert_ne _ (now +:+ ".json") name) by done. reflexivity.
Qed.

(** X6: when the file name of a new migration is above every [.json] file
    name of the directory, as with a later time stamp, [GetList] after
    [AddMigration] returns the former log followed by the new migration: the
    new migration is the last one, the one the next append goes to. *)
Theorem AddMigration_then_GetList d d' now stat mkdir_err description log :
  GetList json d = inr log →
  (∀ name, name ∈ listedNames d → strict String.le name (now +:+ ".json")) →
  AddMigration json d now stat mkdir_err description = (d', None) →
  unmarshalMigration json
    (marshalIndentMigration json (newMigration now description))
  = inr (newMigration now description) →
  GetList json d' = inr (log ++ [newMigration now description])
  ∧ last (log ++ [newMigration now description])
    = Some (newMigration now description).
Proof.
  intros Hlist Hbelow [Hwd ->]%AddMigration_ok Hround.
  split; [|apply last_snoc].
  unfold GetList in *. cbn [getwd_err withFile]. rewrite Hwd in *.
  fold (listedNames d) in Hlist.
  fold (listedNames (withFile d (now +:+ ".json")
          (marshalIndentMigration json (newMigration now description)))).
  rewrite listedNames_new_last by (done || apply hasSuffix_append).
  rewrite GetList_loop_app.
  rewrite (GetList_loop_ext json d).
  - rewrite Hlist. simpl. rewrite trimSuffix_append.
    by rewrite Get_withFile_eq, Hround.
  - intros name Hname. apply Get_withFile_ne.
    pose proof (Hbelow name Hname) as Hlt.
    apply listedNames_elem in Hname as [_ Hsuffix].
    rewrite (trimSuffix_restore _ _ Hsuffix).
    by apply (strict_ne (R:=String.le)).
Qed.

End CreateFacts.

(** ** Appending, then listing *)

Section AppendMore.

Context (json : Json).

(** X7: on a directory whose last [.json] file is named after the id of the
    migration it holds, a successful append returns that id, and [GetList]
    then returns the same log with its last migration replaced by what the
    JSON library reads back from the rewritten file; the migrations before
    it are untouched. *)
Theorem addAction_then_GetList d d' method params earlier lastMigration id reread :
  GetList json d = inr (earlier ++ [lastMigration]) →
  last (listedNames d) = Some (Id lastMigration +:+ ".json") →
  addActionToMigrationFile json d method params = (d', inr id) →
  unmarshalMigration json
    (marshalIndentMigration json
       {| SchemaVersion := SchemaVersion lastMigration;
          Id := Id lastMigration;
          Description := Description lastMigration;
          Actions := Actions lastMigration
                     ++ [{| Method := method;
                            Params := marshalIndentIface json params |}] |})
  = inr reread →
  id = Id lastMigration ∧ GetList json d' = inr (earlier ++ [reread]).
Proof.
  intros Hlist Hlast Happend Hround.
  set (appended := marshalIndentMigration json _) in Hround.
  assert (getwd_err d = None) as Hwd.
  { unfold GetList in Hlist. by destruct (getwd_err d). }
  assert (id = Id lastMigration
          ∧ d' = withFile d (Id lastMigration +:+ ".json") appended)
    as [-> ->].
  { unfold addActionToMigrationFile in Happend. rewrite Hlist in Happend.
    rewrite decide_False in Happend
      by (rewrite length_app; simpl; lia).
    destruct (previewWithHypothetical json _ method params); [done|].
    replace (length (earlier ++ [lastMigration]) - 1) with (length earlier)
      in Happend by (rewrite length_app; simpl; lia).
    rewrite list_lookup_middle in Happend by done.
    unfold getMigrationPath, WriteFile in Happend. cbn [Id] in Happend.
    rewrite Hwd in Happend.
    destruct (write_err d (Id lastMigration +:+ ".json")); [done|].
    injection Happend as <- <-. unfold withFile. by rewrite Hwd. }
  split; [done|].
  apply last_Some in Hlast as [names Hnames].
  assert (listedNames (withFile d (Id lastMigration +:+ ".json") appended)
          = listedNames d) as Hsame.
  { apply listedNames_unique; [apply listedNames_Sorted|apply listedNames_NoDup|].
    intros name. rewrite listedNames_elem. cbn [files withFile].
    destruct (decide (name = Id lastMigration +:+ ".json")) as [->|Hne].
    - rewrite lookup_insert_eq.
      assert (Id lastMigration +:+ ".json" ∈ listedNames d) as Hin.
      { rewrite Hnames. apply elem_of_app. right. left. }
      apply listedNames_elem in Hin as [Hsome Hsuffix].
      split; intros _; (split; [by eauto|done]).
    - by rewrite lookup_insert_ne. }
  pose proof (listedNames_NoDup d) as Hnodup. rewrite Hnames in Hnodup.
  apply NoDup_app in Hnodup as (_ & Hfresh & _).
  unfold GetList in *. cbn [getwd_err withFile]. rewrite Hwd in *.
  fold (listedNames d) in Hlist.
  fold (listedNames (withFile d (Id lastMigration +:+ ".json") appended)).
  rewrite Hsame, Hnames, GetList_loop_app in *.
  rewrite (GetList_loop_ext json d).
  - destruct (GetList_loop json d names []) as [|result]; [done|].
    simpl in *. rewrite trimSuffix_append in *.
    rewrite Get_withFile_eq, Hround by done.
    destruct (Get json d (Id lastMigration)); [done|].
    injection Hlist as Hlist. apply app_inj_tail in Hlist as [-> _]. done.
  - intros name Hname. apply Get_withFile_ne.
    assert (hasSuffix name ".json" = true) as Hsuffix.
    { assert (name ∈ listedNames d) as Hin
        by (rewrite Hnames; apply elem_of_app; by left).
      by apply listedNames_elem in Hin as [_ ?]. }
    rewrite (trimSuffix_restore _ _ Hsuffix).
    intros Heq. apply (Hfresh name Hname). rewrite Heq. left.
Qed.

End AppendMore.

(** ** The statements of the simple actions *)

Section SimpleActions.

Context (json : Json) (srv : Server).
Context (GetSnapshotWithAction : string → nat → error + Snapshot).

Lemma Exec_result tx q a :
  Exec srv tx q a
  = match exec_err srv (visible tx) {| query := q; args := a |} with
    | Some err =>
        ({| committed := committed tx;
            calls := calls tx ++ [({| query := q; args := a |}, false)] |},
         Some err)
    | None =>
        ({| committed := committed tx;
            calls := calls tx ++ [({| query := q; args := a |}, true)] |}, None)
    end.
Proof. done. Qed.

(** X8: [applyAddTable] and [applyDeleteTable] send nothing and fail with
    "table is required" when the table name is blank; otherwise each sends
    exactly one statement, [CREATE TABLE "name" ();] and [DROP TABLE "name"],
    with the name as it is. *)
Theorem table_statements tx name :
  (Str.isBlank name = true →
   applyAddTable srv tx {| at_Name := name |}
   = (tx, Some (Errorf "table is required" []))
   ∧ applyDeleteTable srv tx {| dt_Name := name |}
     = (tx, Some (Errorf "table is required" [])))
  ∧ (Str.isBlank name = false →
     sent (applyAddTable srv tx {| at_Name := name |}).1
     = sent tx ++ [{| query := "CREATE TABLE " +:+ Str.dq +:+ name +:+ Str.dq +:+ " ();";
                      args := [] |}]
     ∧ sent (applyDeleteTable srv tx {| dt_Name := name |}).1
       = sent tx ++ [{| query := "DROP TABLE " +:+ Str.dq +:+ name +:+ Str.dq;
                        args := [] |}]).
Proof.
  unfold applyAddTable, applyDeleteTable. cbn [at_Name dt_Name].
  split; intros ->; [done|].
  split.
  - pose proof (Exec_sent srv tx (Str.Sprintf Sql.createTable [name]) []) as H.
    by destruct (Exec srv tx _ []) as [tx' [err|]].
  - pose proof (Exec_sent srv tx (Str.Sprintf Sql.dropTable [name]) []) as H.
    by destruct (Exec srv tx _ []) as [tx' [err|]].
Qed.

(** X9: [applyDeleteColumn] has no guard: whatever the table and column
    names, blank ones included, it sends exactly one statement,
    [ALTER TABLE "t" DROP COLUMN "c"], and it fails exactly when the server
    refuses that statement. *)
Theorem applyDeleteColumn_statement tx table column :
  let statement :=
    {| query := Str.concat
                  [Str.nl; Str.tab; Str.tab; "ALTER TABLE "; Str.dq; table; Str.dq;
                   Str.nl; Str.tab; Str.tab; Str.tab; "DROP COLUMN "; Str.dq;
                   column; Str.dq; Str.nl; Str.tab];
       args := [] |} in
  let result :=
    applyDeleteColumn srv tx {| dc_Table := table; dc_Column := column |} in
  sent result.1 = sent tx ++ [statement]
  ∧ (result.2 = None ↔ exec_err srv (visible tx) statement = None).
Proof.
  intros statement result. unfold result, applyDeleteColumn. cbn [dc_Table dc_Column].
  change (Str.Sprintf Sql.dropColumn [table; column]) with (query statement).
  rewrite Exec_result.
  change {| query := query statement; args := [] |} with statement.
  destruct (exec_err srv (visible tx) statement) as [err|];
    cbn [fst snd]; unfold sent; cbn [calls]; rewrite fmap_app.
  - split; [done|]. by split.
  - by split.
Qed.

(** X10: the column list that [applyAddPrimaryKey] builds is the keys of
    the snapshot in their order, each in double quotes, separated by a comma
    and a space; it is empty when the snapshot lists no key. *)
Theorem addKeys_join keys :
  addKeys 0 keys "" = Str.join ", " (Str.quote <$> keys)
  ∧ (keys = [] → addKeys 0 keys "" = "").
Proof. split; [apply addKeys_columnList|by intros ->]. Qed.

(** X11: the column list that [applyDeletePrimaryKey] builds is the keys of
    the snapshot other than the target column, in their order, each in
    double quotes, separated by a comma and a space; every occurrence of the
    target is left out, and the list is the whole key list when the target is
    not a key. *)
Theorem remainingKeys_join keys column :
  remainingKeys keys column ""
  = Str.join ", " (Str.quote <$> filter (λ k, k ≠ column) keys)
  ∧ (column ∉ keys →
     remainingKeys keys column "" = Str.join ", " (Str.quote <$> keys)).
Proof.
  split; [apply remainingKeys_columnList|].
  intros Hnotin. rewrite remainingKeys_columnList.
  by rewrite removeKey_absent.
Qed.

(** X12: what [decodeAction] returns without error is either the method it
    was given, one of the six, with parameters of the struct type of that
    method, or the empty method with nil parameters for any other method: the
    type assertions of [applyMigrationActions] cannot fail. *)
Theorem decodeAction_dispatch method raw m v :
  decodeAction json method raw = inr (m, v) →
  (recognized method ∧ m = method
   ∧ match v with
     | IAddTable _ => method = "addTable"
     | IDeleteTable _ => method = "deleteTable"
     | IAddColumn _ => method = "addColumn"
     | IDeleteColumn _ => method = "deleteColumn"
     | IAddPrimaryKey _ => method = "addPrimaryKey"
     | IDeletePrimaryKey _ => method = "deletePrimaryKey"
     | INil => False
     end)
  ∨ (¬ recognized method ∧ m = "" ∧ v = INil).
Proof using json.
  clear srv GetSnapshotWithAction.
  unfold decodeAction, recognized. intros H.
  repeat case_decide; repeat case_match; simplify_eq;
    try (left; split; [set_solver|done]).
  right. split; [|done].
  intros Hin. repeat (apply elem_of_cons in Hin as [?|Hin]; [done|]).
  by apply elem_of_nil in Hin.
Qed.

(** X13: [applyMigrationActions] applies the actions one after the other:
    applying a list of actions followed by another is applying the first
    list and then, when it raised no error, the second list on the resulting
    transaction, its actions numbered after those of the first; an error in
    the first list stops everything after it. *)
Theorem applyActionsFrom_app tx id index actions1 actions2 :
  applyActionsFrom json srv GetSnapshotWithAction tx id index (actions1 ++ actions2)
  = match applyActionsFrom json srv GetSnapshotWithAction tx id index actions1 with
    | (tx1, None) =>
        applyActionsFrom json srv GetSnapshotWithAction tx1 id
          (index + length actions1) actions2
    | failed => failed
    end.
Proof.
  revert tx index. induction actions1 as [|a actions1 IH]; intros tx index.
  - simpl. by rewrite Nat.add_0_r.
  - simpl. destruct (decodeAction json (Method a) (Params a)) as [|[m v]]; [done|].
    destruct (applyDecoded srv GetSnapshotWithAction tx id index m v)
      as [tx1 [err|]]; [done|].
    rewrite IH. by replace (S index + length actions1)
      with (index + S (length actions1)) by lia.
Qed.

End SimpleActions.

(** ** The primary-key actions, for any snapshot function *)

Section PrimaryKeyMore.

Context (srv : Server).
Context (GetSnapshotWithAction : string → nat → error + Snapshot).

(** X14: when [applyAddPrimaryKey] succeeds, the snapshot it asked for
    has the table and the column, and what it sent is: a
    [DROP CONSTRAINT pkey] only when the snapshot lists two keys or more for
    the table, then one [ADD CONSTRAINT pkey PRIMARY KEY] over the keys the
    snapshot lists, in their order. *)
Theorem applyAddPrimaryKey_statements tx tx' migrationId actionIndex params :
  applyAddPrimaryKey srv GetSnapshotWithAction tx migrationId actionIndex params
  = (tx', None) →
  ∃ snapshot table,
    GetSnapshotWithAction migrationId actionIndex = inr snapshot
    ∧ getTableFromSnapshot snapshot (apk_Table params) = Some table
    ∧ is_Some (getColumnFromTable table (apk_Column params))
    ∧ sent tx'
      = sent tx
        ++ (if decide (1 < length (PrimaryKeys table))
            then [{| query := dropConstraintText (apk_Table params); args := [] |}]
            else [])
        ++ [{| query := addConstraintText (apk_Table params)
                          (columnList (PrimaryKeys table));
               args := [] |}].
Proof.
  intros Happly.
  destruct (GetSnapshotWithAction migrationId actionIndex) as [|snapshot] eqn:Hsnap;
    [by unfold applyAddPrimaryKey in Happly; rewrite Hsnap in Happly|].
  destruct (getTableFromSnapshot snapshot (apk_Table params)) as [table|] eqn:Htable;
    [|by unfold applyAddPrimaryKey in Happly; rewrite Hsnap, Htable in Happly].
  exists snapshot, table. split; [done|]. split; [done|]. split.
  - unfold applyAddPrimaryKey in Happly. rewrite Hsnap, Htable in Happly.
    by destruct (getColumnFromTable table (apk_Column params)).
  - by eapply applyAddPrimaryKey_sent.
Qed.

(** X15: when [applyDeletePrimaryKey] succeeds, the snapshot it asked for
    has the table, and what it sent is a [DROP CONSTRAINT pkey] followed by
    one [ADD CONSTRAINT pkey PRIMARY KEY] over the keys of the snapshot
    other than the target column, in their order. The target is not checked
    against the keys: for a column that is not a key the same constraint is
    dropped and created again. *)
Theorem applyDeletePrimaryKey_statements tx tx' migrationId actionIndex params :
  applyDeletePrimaryKey srv GetSnapshotWithAction tx migrationId actionIndex params
  = (tx', None) →
  ∃ snapshot table,
    GetSnapshotWithAction migrationId actionIndex = inr snapshot
    ∧ getTableFromSnapshot snapshot (dpk_Table params) = Some table
    ∧ sent tx'
      = sent tx
        ++ [{| query := dropConstraintText (dpk_Table params); args := [] |};
            {| query := addConstraintText (dpk_Table params)
                          (columnList (filter (λ k, k ≠ dpk_Column params)
                                         (PrimaryKeys table)));
               args := [] |}]
    ∧ (dpk_Column params ∉ PrimaryKeys table →
       filter (λ k, k ≠ dpk_Column params) (PrimaryKeys table)
       = PrimaryKeys table).
Proof.
  intros Happly.
  destruct (GetSnapshotWithAction migrationId actionIndex) as [|snapshot] eqn:Hsnap;
    [by unfold applyDeletePrimaryKey in Happly; rewrite Hsnap in Happly|].
  destruct (getTableFromSnapshot snapshot (dpk_Table params)) as [table|] eqn:Htable;
    [|by unfold applyDeletePrimaryKey in Happly; rewrite Hsnap, Htable in Happly].
  exists snapshot, table. split; [done|]. split; [done|]. split.
  - by eapply applyDeletePrimaryKey_sent.
  - apply removeKey_absent.
Qed.

End PrimaryKeyMore.

(** ** Refused statements *)

Section Refusals.

Context (json : Json) (srv : Server).
Context (GetSnapshotWithAction : string → nat → error + Snapshot).

Lemma acceptedSince_refl tx : acceptedSince tx tx.
Proof. exists []. by rewrite app_nil_r. Qed.

Lemma acceptedSince_trans tx1 tx2 tx3 :
  acceptedSince tx1 tx2 → acceptedSince tx2 tx3 → acceptedSince tx1 tx3.
Proof.
  intros (n1 & Hn1 & HF1) (n2 & Hn2 & HF2). exists (n1 ++ n2).
  rewrite Hn2, Hn1, (assoc_L (++)). split; [done|]. by apply Forall_app.
Qed.

Lemma Exec_accepted tx q a :
  (Exec srv tx q a).2 = None → acceptedSince tx (Exec srv tx q a).1.
Proof.
  rewrite Exec_result. destruct (exec_err srv (visible tx) _); [done|].
  intros _. eexists. split; [done|]. by repeat constructor.
Qed.

(** Closes a goal on a function that makes one call of [Exec] at most. *)
Local Ltac one_accepted :=
  match goal with
  | |- context [Exec srv ?tx ?q ?a] =>
      pose proof (Exec_accepted tx q a);
      destruct (Exec srv tx q a) as [? [?|]]; simpl in *; auto; done
  end.

Lemma applyAddTable_accepted tx p :
  (applyAddTable srv tx p).2 = None → acceptedSince tx (applyAddTable srv tx p).1.
Proof. unfold applyAddTable. destruct (Str.isBlank _); [done|]. one_accepted. Qed.

Lemma applyDeleteTable_accepted tx p :
  (applyDeleteTable srv tx p).2 = None →
  acceptedSince tx (applyDeleteTable srv tx p).1.
Proof. unfold applyDeleteTable. destruct (Str.isBlank _); [done|]. one_accepted. Qed.

Lemma applyAddColumn_accepted tx p :
  (applyAddColumn srv tx p).2 = None →
  acceptedSince tx (applyAddColumn srv tx p).1.
Proof.
  unfold applyAddColumn. destruct (Str.isBlank (ac_Table p)); [done|].
  destruct (Str.isBlank (ac_Column p)); [done|]. one_accepted.
Qed.

Lemma applyDeleteColumn_accepted tx p :
  (applyDeleteColumn srv tx p).2 = None →
  acceptedSince tx (applyDeleteColumn srv tx p).1.
Proof. unfold applyDeleteColumn. one_accepted. Qed.

Lemma applyAddPrimaryKey_accepted tx id index p :
  (applyAddPrimaryKey srv GetSnapshotWithAction tx id index p).2 = None →
  acceptedSince tx (applyAddPrimaryKey srv GetSnapshotWithAction tx id index p).1.
Proof.
  unfold applyAddPrimaryKey.
  destruct (GetSnapshotWithAction id index) as [|snapshot]; [done|].
  destruct (getTableFromSnapshot snapshot (apk_Table p)) as [table|]; [|done].
  destruct (getColumnFromTable table (apk_Column p)); [|done].
  set (drop := Str.Sprintf Sql.dropConstraint _).
  set (add := Str.Sprintf Sql.addConstraint _).
  destruct (decide (1 < length (PrimaryKeys table))).
  - pose proof (Exec_accepted tx drop []) as H1.
    destruct (Exec srv tx drop []) as [tx1 [err|]]; [done|].
    pose proof (Exec_accepted tx1 add []) as H2.
    destruct (Exec srv tx1 add []) as [tx2 [err|]]; [done|].
    cbn [fst snd] in *. intros _. eapply acceptedSince_trans; eauto.
  - pose proof (Exec_accepted tx add []) as H2.
    destruct (Exec srv tx add []) as [tx2 [err|]]; [done|].
    cbn [fst snd] in *. auto.
Qed.

Lemma applyDeletePrimaryKey_accepted tx id index p :
  (applyDeletePrimaryKey srv GetSnapshotWithAction tx id index p).2 = None →
  acceptedSince tx
    (applyDeletePrimaryKey srv GetSnapshotWithAction tx id index p).1.
Proof.
  unfold applyDeletePrimaryKey.
  destruct (GetSnapshotWithAction id index) as [|snapshot]; [done|].
  destruct (getTableFromSnapshot snapshot (dpk_Table p)) as [table|]; [|done].
  set (drop := Str.Sprintf Sql.dropConstraint _).
  set (add := Str.Sprintf Sql.addConstraint _).
  pose proof (Exec_accepted tx drop []) as H1.
  destruct (Exec srv tx drop []) as [tx1 [err|]]; [done|].
  pose proof (Exec_accepted tx1 add []) as H2.
  destruct (Exec srv tx1 add []) as [tx2 [err|]]; [done|].
  cbn [fst snd] in *. intros _. eapply acceptedSince_trans; eauto.
Qed.

Lemma applyDecoded_accepted tx id index method params :
  (applyDecoded srv GetSnapshotWithAction tx id index method params).2 = None →
  acceptedSince tx
    (applyDecoded srv GetSnapshotWithAction tx id index method params).1.
Proof.
  unfold applyDecoded.
  repeat case_decide; destruct params; try done;
    auto using acceptedSince_refl, applyAddTable_accepted,
      applyDeleteTable_accepted, applyAddColumn_accepted,
      applyDeleteColumn_accepted, applyAddPrimaryKey_accepted,
      applyDeletePrimaryKey_accepted.
Qed.

Lemma applyActionsFrom_accepted tx id index actions :
  (applyActionsFrom json srv GetSnapshotWithAction tx id index actions).2 = None →
  acceptedSince tx
    (applyActionsFrom json srv GetSnapshotWithAction tx id index actions).1.
Proof.
  revert tx index. induction actions as [|a actions IH]; intros tx index.
  - intros _. apply acceptedSince_refl.
  - simpl. destruct (decodeAction json (Method a) (Params a)) as [|[method params]];
      [done|].
    pose proof (applyDecoded_accepted tx id index method params) as H1.
    destruct (applyDecoded srv GetSnapshotWithAction tx id index method params)
      as [tx1 [err|]]; [done|].
    intros Hrest. eapply acceptedSince_trans; [by apply H1|by apply IH].
Qed.

End Refusals.

Section SyncMore.

Context (json : Json) (srv : Server).

Lemma Sync_loop_refusals log migrations marker passed tx :
  (Sync_loop json srv log migrations marker passed tx).2 = None →
  ∃ new, calls (Sync_loop json srv log migrations marker passed tx).1
         = calls tx ++ new
         ∧ onlyInsertsRefused new.
Proof.
  revert passed tx. induction migrations as [|m migrations IH]; intros passed tx.
  { intros _. exists []. split; [by rewrite app_nil_r|constructor]. }
  simpl. destruct (decide (Id m = marker)); [apply IH|].
  destruct passed; simpl; [|apply IH].
  pose proof (applyActionsFrom_accepted json srv (snapshotAsOf json log) tx
                (Id m) 0 (Actions m)) as H1.
  unfold applyMigrationActions.
  destruct (applyActionsFrom json srv (snapshotAsOf json log) tx (Id m) 0 (Actions m))
    as [tx1 [err|]]; [done|].
  destruct H1 as (n1 & Hn1 & HF1); [done|]. cbn [fst] in Hn1.
  unfold addMigrationToMigrationsTable.
  destruct (Exec_calls srv tx1 insertMigrationQuery [Id m; marshalMigration json m])
    as (ok & Hn2 & _ & _).
  intros Hnone. destruct (IH true _ Hnone) as (n3 & Hn3 & HF3).
  exists (n1 ++ [({| query := insertMigrationQuery;
                     args := [Id m; marshalMigration json m] |}, ok)] ++ n3).
  split.
  { rewrite Hn3, Hn2, Hn1. by rewrite <-!(assoc_L (++)). }
  apply Forall_app. split.
  - eapply Forall_impl; [exact HF1|]. intros c Hc. by rewrite Hc.
  - apply Forall_cons. by split.
Qed.

(** How a committed run went: the setup was accepted, and the loop ran to
    its end from the marker of the store. *)
Lemma Sync_committed d db log tx :
  GetList json d = inr log →
  Sync json srv d db = Committed tx →
  Sync_loop json srv log log (default "" (maxId (migrationRows db)))
    (bool_decide (default "" (maxId (migrationRows db)) = ""))
    {| committed := db; calls := [(setup, true)] |}
  = (tx, None).
Proof.
  intros Hlist Hrun. unfold Sync in Hrun. rewrite Hlist in Hrun.
  destruct (open_err srv); [done|].
  destruct (ping_err srv); [done|].
  destruct (begin_err srv); [done|].
  unfold addMigrationsTableIfNotExist, getCurrentSyncedMigrationId, Exec in Hrun.
  destruct (exec_err srv (visible (begin db)) _); [done|].
  destruct (scan_err srv _); [done|].
  destruct (GetCurrentSnapshot json log); [done|].
  rewrite visible_rows in Hrun. cbn [committed calls begin app] in Hrun.
  fold setup in Hrun. rewrite rowsOf_setup, app_nil_r in Hrun.
  destruct (Sync_loop json srv log log _ _ _) as [tx1 [err|]]; [done|].
  destruct (commit_err srv _); [done|]. by injection Hrun as ->.
Qed.

(** X16: a run of [Sync] commits only when the server accepted the
    creation of the bookkeeping table and every statement of every action it
    applied: in a committed run, the only calls the server can have refused
    are bookkeeping inserts. *)
Theorem Sync_commit_means_ddl_accepted d db tx :
  Sync json srv d db = Committed tx →
  committed tx = db
  ∧ (∃ rest, calls tx = (setup, true) :: rest)
  ∧ onlyInsertsRefused (calls tx).
Proof.
  intros Hrun.
  destruct (GetList json d) as [err|log] eqn:Hlist;
    [by unfold Sync in Hrun; rewrite Hlist in Hrun|].
  pose proof (Sync_committed d db log tx Hlist Hrun) as Hloop.
  pose proof (Sync_loop_calls json srv log log
                (default "" (maxId (migrationRows db)))
                (bool_decide (default "" (maxId (migrationRows db)) = ""))
                {| committed := db; calls := [(setup, true)] |}) as (Hc & _).
  pose proof (Sync_loop_refusals log log
                (default "" (maxId (migrationRows db)))
                (bool_decide (default "" (maxId (migrationRows db)) = ""))
                {| committed := db; calls := [(setup, true)] |}) as Hrefused.
  rewrite Hloop in Hc, Hrefused. cbn [fst snd committed calls] in *.
  destruct Hrefused as (new & Hnew & HF); [done|].
  split; [done|]. split; [by exists new|].
  rewrite Hnew. apply Forall_cons. by split.
Qed.

(** X17: [Sync] rolls back for three reasons only: the creation of the
    bookkeeping table failed, the marker could not be read, or the actions
    of a migration failed. A refused bookkeeping insert is not one of them:
    the error "can't add migration to migrations table" is never returned. *)
Theorem Sync_rollback_reasons d db tx err :
  Sync json srv d db = RolledBack tx err →
  (∃ cause, err = Wrap "can't add migration table: %v" [] cause)
  ∨ (∃ cause, err = Wrap "can't read current migration state: %v" [] cause)
  ∨ (∃ id cause, err = Wrap "can't apply migration %v: %v/n" [id] cause).
Proof.
  unfold Sync.
  destruct (GetList json d) as [|log]; [done|].
  destruct (open_err srv); [done|].
  destruct (ping_err srv); [done|].
  destruct (begin_err srv); [done|].
  destruct (addMigrationsTableIfNotExist srv (begin db)) as [tx0 [cause|]].
  { intros [= _ <-]. left. by exists cause. }
  destruct (getCurrentSyncedMigrationId srv tx0) as [marker [cause|]].
  { intros [= _ <-]. right. left. by exists cause. }
  destruct (GetCurrentSnapshot json log); [done|].
  pose proof (Sync_loop_error json srv log log marker
                (bool_decide (marker = "")) tx0) as Hloop.
  destruct (Sync_loop json srv log log marker (bool_decide (marker = "")) tx0)
    as [tx1 [cause|]].
  - intros [= _ <-]. right. right. by apply Hloop.
  - by destruct (commit_err srv _).
Qed.

End SyncMore.

(** ** Which migrations a run records *)

Lemma pending_after_marker before m after :
  Id m ∉ Id <$> before → Id m ∉ Id <$> after →
  pending (before ++ m :: after) (Id m) false = after.
Proof.
  intros Hbefore Hafter. induction before as [|b before IH]; simpl.
  - rewrite decide_True by done. apply pending_all.
    intros x Hx Heq. apply Hafter. rewrite <-Heq. by apply list_elem_of_fmap_2.
  - rewrite fmap_cons in Hbefore. apply not_elem_of_cons in Hbefore as [Hne Hbefore].
    rewrite decide_False by done. by apply IH.
Qed.

Lemma rowsOf_insert cs s ok id rest :
  Forall (λ c, c.2 = true) cs →
  (s, ok) ∈ cs → query s = insertMigrationQuery → args s = id :: rest →
  id ∈ rowsOf cs.
Proof.
  intros Hall Hin Hquery Hargs. induction Hall as [|[s' ok'] cs Hok _ IH].
  { by apply elem_of_nil in Hin. }
  change ((s', ok') :: cs) with ([(s', ok')] ++ cs). rewrite rowsOf_app.
  apply elem_of_app. apply elem_of_cons in Hin as [[= <- <-]|Hin]; [left|by right; apply IH].
  simpl in Hok. subst ok. unfold rowsOf, migrationRows.
  rewrite filter_cons, decide_True by done. simpl.
  rewrite decide_True by done. rewrite Hargs. simpl. left.
Qed.

Section Recorded.

Context (json : Json) (srv : Server).

(** After a committed run without a refused call, the bookkeeping table
    holds its former rows followed by one row per migration that was
    pending, in the order of the log. *)
Lemma Sync_committed_rows d db log tx :
  GetList json d = inr log →
  Sync json srv d db = Committed tx →
  unrefused tx →
  committed tx = db
  ∧ rowsOf (calls tx)
    = Id <$> pending log (default "" (maxId (migrationRows db)))
               (bool_decide (default "" (maxId (migrationRows db)) = "")).
Proof.
  intros Hlist Hrun Hclean.
  pose proof (Sync_committed json srv d db log tx Hlist Hrun) as Hloop.
  pose proof (Sync_loop_calls json srv log log
                (default "" (maxId (migrationRows db)))
                (bool_decide (default "" (maxId (migrationRows db)) = ""))
                {| committed := db; calls := [(setup, true)] |})
    as (Hc & new & Hnew & Hrows).
  rewrite Hloop in Hc, Hnew, Hrows. cbn [fst snd committed calls] in *.
  split; [done|].
  unfold unrefused in Hclean. rewrite Hnew in Hclean |- *.
  apply Forall_app in Hclean as [_ Hclean].
  rewrite rowsOf_app, rowsOf_setup. simpl. by apply Hrows.
Qed.

(** X18: on a store without bookkeeping rows, a run of [Sync] that commits
    with none of its calls refused records every migration of the log, in the
    order of the log, provided no migration has the empty id: afterwards the
    bookkeeping table holds exactly the ids of the log, in order. *)
Theorem Sync_records_log d db log tx :
  GetList json d = inr log →
  migrationRows db = [] →
  (∀ m, m ∈ log → Id m ≠ "") →
  Sync json srv d db = Committed tx →
  unrefused tx →
  migrationRows (durable db (Sync json srv d db)) = Id <$> log.
Proof.
  intros Hlist Hempty Hids Hrun Hclean.
  destruct (Sync_committed_rows d db log tx Hlist Hrun Hclean) as [Hc Hrows].
  rewrite Hrun. cbn [durable].
  rewrite visible_rows, Hc, Hrows, Hempty. simpl.
  by rewrite pending_all.
Qed.

(** X19: on a store whose marker is the id of a migration of the log, the
    ids of the log being distinct, a run of [Sync] that commits with none of
    its calls refused records exactly the migrations that come after that
    one, in order, and neither that migration nor any before it. *)
Theorem Sync_resumes_after_marker d db before m after tx :
  GetList json d = inr (before ++ m :: after) →
  NoDup (Id <$> before ++ m :: after) →
  Id m ≠ "" →
  maxId (migrationRows db) = Some (Id m) →
  Sync json srv d db = Committed tx →
  unrefused tx →
  migrationRows (durable db (Sync json srv d db))
  = migrationRows db ++ (Id <$> after)
  ∧ ∀ m', m' ∈ before ++ [m] → ¬ applies json (Sync json srv d db) m'.
Proof.
  intros Hlist Hnodup Hne Hmarker Hrun Hclean.
  destruct (Sync_committed_rows d db _ tx Hlist Hrun Hclean) as [Hc Hrows].
  rewrite Hmarker in Hrows. cbn [default] in Hrows.
  rewrite bool_decide_eq_false_2 in Hrows by done.
  rewrite fmap_app, fmap_cons in Hnodup.
  apply NoDup_app in Hnodup as (_ & Hbefore & Hafter).
  apply NoDup_cons in Hafter as [Hm _].
  rewrite pending_after_marker in Hrows; [|intros Hin; apply (Hbefore _ Hin); left|done].
  rewrite Hrun. cbn [durable]. split.
  - by rewrite visible_rows, Hc, Hrows.
  - intros m' Hm' Happlied. unfold applies in Happlied. cbn [statements] in Happlied.
    unfold sent in Happlied.
    apply list_elem_of_fmap in Happlied as ([s ok] & Hs & Hin). simpl in Hs. subst s.
    assert (Id m' ∈ rowsOf (calls tx)) as Hrow.
    { by eapply (rowsOf_insert (calls tx) (insertOf json m') ok (Id m')). }
    rewrite Hrows in Hrow.
    apply elem_of_app in Hm' as [Hm'|Hm'%list_elem_of_singleton].
    + apply (Hbefore (Id m')); [by apply list_elem_of_fmap_2|by right].
    + subst m'. done.
Qed.

End Recorded.

(** ** The extra properties on the concrete log *)

Lemma GetList_reads_json_files_witness :
  let d := Example.disk [Example.doc1; Example.doc2] in
  listedNames d = ["20240101000000.json"; "20240102000000.json"]
  ∧ Forall2 (λ name m, ∃ text, files d !! name = Some text
                               ∧ unmarshalMigration Example.json text = inr m)
      (listedNames d) [Example.m1; Example.m2].
Proof.
  intros d. split; [by vm_compute|].
  destruct (GetList_reads_json_files Example.json d [Example.m1; Example.m2])
    as (_ & _ & _ & Hall); [by vm_compute|].
  exact Hall.
Defined.

Lemma GetList_succeeds_iff_witness :
  let d := Example.disk [Example.doc1] in
  ((∃ log, GetList Example.json d = inr log)
   ↔ ∀ name text, files d !! name = Some text →
                  hasSuffix name ".json" = true →
                  ∃ m, unmarshalMigration Example.json text = inr m)
  ∧ (∀ err, GetList Example.json d = inl err →
       ∃ cause, err = Wrap "can't read migration %v/n" []
                        (Wrap "can't parse migration: %v/n" [] cause)).
Proof.
  intros d. apply (GetList_succeeds_iff Example.json d). reflexivity.
Defined.

Lemma GetList_ignores_other_files_witness :
  let d := Example.disk [Example.doc1] in
  GetList Example.json (withFile d "README.md" "notes") = GetList Example.json d.
Proof.
  intros d. apply (GetList_ignores_other_files Example.json d "README.md" "notes").
  reflexivity.
Defined.


Lemma AddMigration_same_second_witness :
  let d := Example.disk [Example.doc1] in
  let d1 :=
    (AddMigration Example.json d "20240106000000" StatNotExist None "first").1 in
  let d2 :=
    (AddMigration Example.json d1 "20240106000000" StatOk None "second").1 in
  d2 = withFile d "20240106000000.json"
         (marshalIndentMigration Example.json
            (newMigration "20240106000000" "second"))
  ∧ listedNames d2 = listedNames d1.
Proof.
  intros d d1 d2.
  apply (AddMigration_same_second Example.json d d1 d2 "20240106000000"
           StatNotExist StatOk None None "first" "second").
  - by vm_compute.
  - by vm_compute.
Defined.

Lemma example_names_below :
  ∀ name, name ∈ listedNames (Example.disk [Example.doc1]) →
          strict String.le name "20240106000000.json".
Proof.
  intros name Hname.
  assert (listedNames (Example.disk [Example.doc1]) = ["20240101000000.json"])
    as Hnames by (by vm_compute).
  rewrite Hnames in Hname. apply list_elem_of_singleton in Hname as ->.
  split; by vm_compute.
Qed.

Lemma AddMigration_then_GetList_witness :
  let d := Example.disk [Example.doc1] in
  let d' := (AddMigration Example.json d "20240106000000" StatOk None "empty").1 in
  GetList Example.json d'
  = inr ([Example.m1] ++ [newMigration "20240106000000" "empty"])
  ∧ last ([Example.m1] ++ [newMigration "20240106000000" "empty"])
    = Some (newMigration "20240106000000" "empty").
Proof.
  intros d d'.
  apply (AddMigration_then_GetList Example.json d d' "20240106000000" StatOk None
           "empty" [Example.m1]).
  - by vm_compute.
  - exact example_names_below.
  - by vm_compute.
  - by vm_compute.
Defined.

Lemma addAction_then_GetList_witness :
  let d := Example.disk [Example.doc1; Example.doc6] in
  let d' := (addActionToMigrationFile Example.json d "addColumn" Example.name).1 in
  "20240106000000" = Id Example.m6
  ∧ GetList Example.json d' = inr ([Example.m1] ++ [Example.parsed Example.doc6']).
Proof.
  intros d d'.
  apply (addAction_then_GetList Example.json d d' "addColumn" Example.name
           [Example.m1] Example.m6 "20240106000000"
           (Example.parsed Example.doc6')).
  - by vm_compute.
  - by vm_compute.
  - by vm_compute.
  - by vm_compute.
Defined.

Lemma table_statements_witness :
  applyAddTable Example.server (begin []) {| at_Name := " " |}
  = (begin [], Some (Errorf "table is required" []))
  ∧ sent (applyAddTable Example.server (begin []) {| at_Name := "users" |}).1
    = [{| query := "CREATE TABLE " +:+ Str.dq +:+ "users" +:+ Str.dq +:+ " ();";
          args := [] |}]
  ∧ sent (applyDeleteTable Example.server (begin []) {| dt_Name := "users" |}).1
    = [{| query := "DROP TABLE " +:+ Str.dq +:+ "users" +:+ Str.dq; args := [] |}].
Proof.
  split.
  - destruct (table_statements Example.server (begin []) " ") as [Hblank _].
    destruct Hblank as [Hadd _]; [reflexivity|]. exact Hadd.
  - destruct (table_statements Example.server (begin []) "users") as [_ Hsent].
    apply Hsent. reflexivity.
Defined.

Lemma addKeys_join_witness :
  addKeys 0 ["id"; "email"] ""
  = Str.dq +:+ "id" +:+ Str.dq +:+ ", " +:+ Str.dq +:+ "email" +:+ Str.dq
  ∧ addKeys 0 [] "" = "".
Proof.
  split.
  - destruct (addKeys_join ["id"; "email"]) as [Hjoin _]. rewrite Hjoin.
    reflexivity.
  - destruct (addKeys_join []) as [_ Hempty]. by apply Hempty.
Defined.

Lemma remainingKeys_join_witness :
  remainingKeys ["id"; "email"; "name"] "email" ""
  = Str.dq +:+ "id" +:+ Str.dq +:+ ", " +:+ Str.dq +:+ "name" +:+ Str.dq
  ∧ remainingKeys ["id"; "email"] "age" ""
    = Str.dq +:+ "id" +:+ Str.dq +:+ ", " +:+ Str.dq +:+ "email" +:+ Str.dq.
Proof.
  split.
  - destruct (remainingKeys_join ["id"; "email"; "name"] "email") as [Hjoin _].
    rewrite Hjoin. reflexivity.
  - destruct (remainingKeys_join ["id"; "email"] "age") as [_ Hall].
    rewrite Hall; [reflexivity|].
    apply (bool_decide_unpack _). by vm_compute.
Defined.

Lemma decodeAction_dispatch_witness :
  recognized "addTable" ∧ ¬ recognized "renameColumn".
Proof.
  split.
  - destruct (decodeAction_dispatch Example.json "addTable"
                (Example.indented Example.inFile (Example.members Example.users))
                "addTable" Example.users) as [(Hknown & _)|(_ & Habsurd & _)];
      [by vm_compute|exact Hknown|discriminate Habsurd].
  - destruct (decodeAction_dispatch Example.json "renameColumn" "{}" "" INil)
      as [(_ & _ & Habsurd)|(Hunknown & _)];
      [by vm_compute|destruct Habsurd|exact Hunknown].
Defined.

Lemma applyAddPrimaryKey_statements_witness :
  let tx' :=
    (applyAddPrimaryKey Example.server (Sample.always Sample.keyed) (begin [])
       "20240103000000" 1 {| apk_Table := "users"; apk_Column := "name" |}).1 in
  ∃ table,
    getTableFromSnapshot Sample.keyed "users" = Some table
    ∧ sent tx'
      = [{| query := dropConstraintText "users"; args := [] |};
         {| query := addConstraintText "users" (columnList ["id"; "email"]);
            args := [] |}].
Proof.
  intros tx'.
  destruct (applyAddPrimaryKey_statements Example.server
              (Sample.always Sample.keyed) (begin []) tx' "20240103000000" 1
              {| apk_Table := "users"; apk_Column := "name" |})
    as (snapshot & table & Hsnap & Htable & _ & Hsent); [by vm_compute|].
  injection Hsnap as <-.
  exists table. split; [exact Htable|].
  rewrite Hsent.
  assert (table = {| Columns := [("id", Sample.column); ("email", Sample.column);
                                 ("name", Sample.column)];
                     PrimaryKeys := ["id"; "email"] |}) as ->.
  { assert (getTableFromSnapshot Sample.keyed "users"
            = Some {| Columns := [("id", Sample.column); ("email", Sample.column);
                                  ("name", Sample.column)];
                      PrimaryKeys := ["id"; "email"] |}) as Hkeyed
      by (by vm_compute).
    cbn [apk_Table] in Htable. rewrite Hkeyed in Htable. by injection Htable. }
  reflexivity.
Defined.

Lemma applyDeletePrimaryKey_statements_witness :
  let tx' :=
    (applyDeletePrimaryKey Example.server (Sample.always Sample.keyed) (begin [])
       "20240103000000" 1 {| dpk_Table := "users"; dpk_Column := "email" |}).1 in
  ∃ table,
    getTableFromSnapshot Sample.keyed "users" = Some table
    ∧ sent tx'
      = [{| query := dropConstraintText "users"; args := [] |};
         {| query := addConstraintText "users" (columnList ["id"]); args := [] |}].
Proof.
  intros tx'.
  destruct (applyDeletePrimaryKey_statements Example.server
              (Sample.always Sample.keyed) (begin []) tx' "20240103000000" 1
              {| dpk_Table := "users"; dpk_Column := "email" |})
    as (snapshot & table & Hsnap & Htable & Hsent & _); [by vm_compute|].
  injection Hsnap as <-.
  exists table. split; [exact Htable|].
  rewrite Hsent.
  assert (table = {| Columns := [("id", Sample.column); ("email", Sample.column);
                                 ("name", Sample.column)];
                     PrimaryKeys := ["id"; "email"] |}) as ->.
  { assert (getTableFromSnapshot Sample.keyed "users"
            = Some {| Columns := [("id", Sample.column); ("email", Sample.column);
                                  ("name", Sample.column)];
                      PrimaryKeys := ["id"; "email"] |}) as Hkeyed
      by (by vm_compute).
    cbn [dpk_Table] in Htable. rewrite Hkeyed in Htable. by injection Htable. }
  reflexivity.
Defined.

Lemma Sync_commit_means_ddl_accepted_witness :
  ∃ tx,
    Sync Example.json Example.readOnlyBookkeeping (Example.disk [Example.doc1]) []
    = Committed tx
    ∧ ¬ unrefused tx
    ∧ onlyInsertsRefused (calls tx).
Proof.
  eexists. split; [vm_compute; reflexivity|]. split.
  - unfold unrefused. intros Hall. cbn [calls] in Hall.
    apply Forall_cons in Hall as [_ Hall].
    apply Forall_cons in Hall as [_ Hall].
    apply Forall_cons in Hall as [Hrefused _]. discriminate Hrefused.
  - eapply (Sync_commit_means_ddl_accepted Example.json
              Example.readOnlyBookkeeping (Example.disk [Example.doc1]) []).
    vm_compute. reflexivity.
Defined.

Lemma Sync_rollback_reasons_witness :
  ∃ tx cause,
    Sync Example.json (Sample.refusing Sample.createUsers)
      (Example.disk [Example.doc1]) []
    = RolledBack tx (Wrap "can't apply migration %v: %v/n" ["20240101000000"] cause).
Proof.
  destruct (Sync Example.json (Sample.refusing Sample.createUsers)
              (Example.disk [Example.doc1]) []) as [| |tx err| | |] eqn:Hrun;
    try (vm_compute in Hrun; discriminate Hrun).
  destruct (Sync_rollback_reasons Example.json (Sample.refusing Sample.createUsers)
              (Example.disk [Example.doc1]) [] tx err Hrun)
    as [[cause ->]|[[cause ->]|(id & cause & ->)]];
    try (vm_compute in Hrun; discriminate Hrun).
  exists tx, cause. vm_compute in Hrun. injection Hrun as _ Hid _. by rewrite Hid.
Defined.

Lemma Sync_records_log_witness :
  let d := Example.disk [Example.doc1; Example.doc2] in
  migrationRows (durable [] (Sync Example.json Example.server d []))
  = ["20240101000000"; "20240102000000"].
Proof.
  intros d.
  erewrite (Sync_records_log Example.json Example.server d []
              [Example.m1; Example.m2]).
  - reflexivity.
  - by vm_compute.
  - reflexivity.
  - intros m Hm. repeat (apply elem_of_cons in Hm as [->|Hm]; [done|]).
    by apply elem_of_nil in Hm.
  - vm_compute. reflexivity.
  - unfold unrefused. cbn [calls]. by repeat constructor.
Defined.

Lemma Sync_resumes_after_marker_witness :
  let d := Example.disk [Example.doc1; Example.doc2; Example.doc3] in
  migrationRows (durable Sample.synced
                   (Sync Example.json Example.server d Sample.synced))
  = ["20240101000000"; "20240102000000"; "20240103000000"]
  ∧ ∀ m', m' ∈ [Example.m1] ++ [Example.m2] →
          ¬ applies Example.json
              (Sync Example.json Example.server d Sample.synced) m'.
Proof.
  intros d.
  eapply (Sync_resumes_after_marker Example.json Example.server d Sample.synced
            [Example.m1] Example.m2 [Example.m3]).
  - by vm_compute.
  - apply (bool_decide_unpack _). by vm_compute.
  - done.
  - by vm_compute.
  - vm_compute. reflexivity.
  - unfold unrefused. cbn [calls]. by repeat constructor.
Defined.

(** ** What the appending functions write *)

Section AppendEffect.

Context (json : Json).



End AppendEffect.

Section Guards.

Context (json : Json) (srv : Server).

(** X21: an action recorded by [AddTable], [DeleteTable] or [AddColumn]
    passes the name guards of the function that applies it at sync: when the
    recording succeeded, [applyAddTable], [applyDeleteTable] or
    [applyAddColumn] on the same names gets as far as sending its one
    statement, whatever the transaction. *)
Theorem recorded_actions_pass_guards d tx :
  (∀ name d' id,
     AddTable json d name = (d', inr id) →
     ∃ s, sent (applyAddTable srv tx {| at_Name := name |}).1 = sent tx ++ [s])
  ∧ (∀ name d' id,
       DeleteTable json d name = (d', inr id) →
       ∃ s, sent (applyDeleteTable srv tx {| dt_Name := name |}).1
            = sent tx ++ [s])
  ∧ (∀ table column type nullable default d' id,
       AddColumn json d table column type nullable default = (d', inr id) →
       ∃ s, sent (applyAddColumn srv tx
                    {| ac_Table := table; ac_Column := column; ac_Type := type;
                       ac_IsNullable := nullable; ac_DefaultValue := default |}).1
            = sent tx ++ [s]).
Proof.
  split; [|split].
  - intros name d' id. unfold AddTable, applyAddTable. cbn [at_Name].
    destruct (Str.isBlank name); [done|]. intros _.
    pose proof (Exec_sent srv tx (Str.Sprintf Sql.createTable [name]) []) as H.
    destruct (Exec srv tx _ []) as [tx' [err|]]; by eexists.
  - intros name d' id. unfold DeleteTable, applyDeleteTable. cbn [dt_Name].
    destruct (Str.isBlank name); [done|]. intros _.
    pose proof (Exec_sent srv tx (Str.Sprintf Sql.dropTable [name]) []) as H.
    destruct (Exec srv tx _ []) as [tx' [err|]]; by eexists.
  - intros table column type nullable default d' id.
    unfold AddColumn, applyAddColumn.
    cbn [ac_Table ac_Column ac_Type ac_IsNullable ac_DefaultValue].
    destruct (Str.isBlank table); [done|].
    destruct (Str.isBlank column); [done|]. intros _.
    match goal with
    | |- context [Exec srv tx ?q []] =>
        pose proof (Exec_sent srv tx q []) as H;
        destruct (Exec srv tx q []) as [tx' [err|]]; by eexists
    end.
Qed.

End Guards.

Lemma recorded_actions_pass_guards_witness :
  let d := Example.disk [Example.doc1; Example.doc6] in
  (AddColumn Example.json d "users" "name" "text" false "anonymous").2
  = inr "20240106000000"
  ∧ ∃ s, sent (applyAddColumn Example.server (begin [])
                 {| ac_Table := "users"; ac_Column := "name"; ac_Type := "text";
                    ac_IsNullable := false; ac_DefaultValue := "anonymous" |}).1
         = [] ++ [s].
Proof.
  intros d. split; [by vm_compute|].
  destruct (recorded_actions_pass_guards Example.json Example.server d (begin []))
    as (_ & _ & Hcolumn).
  apply (Hcolumn "users" "name" "text" false "anonymous"
           (AddColumn Example.json d "users" "name" "text" false "anonymous").1
           "20240106000000").
  by vm_compute.
Defined.
